(** * P.A.W agent server: agent lifecycle, interaction routines, registry

    A shallow embedding of [src/agent.ts] (class [PuppeteerAgent]),
    [src/utils.ts] ([saveAgentsToFile], [loadAgentsFromFile]) and the agent
    endpoints of [src/api.ts], with the properties of the specification that
    concern them.

    - The browser-automation library, the file system and the UUID source
      are the environment: every call into them is answered by an oracle
      of the record [Env], indexed by a logical clock that advances at each
      awaited call.  An answer is a value or a thrown [Error].
    - An [async] method is a function from the state of its object to a
      settlement and a new state.  Calls on one agent run one after the
      other, as the control surface makes them; every [await] of the
      environment is a suspension point at which the fields of the object
      are recorded as another request would see them.
    - [Promise.all] over the participant rows awaits the rows in order.
    - The [agents] object is a plain object: a finite map from identifiers
      to agents for the properties of its own, and the property names of
      [Object.prototype] besides, which a lookup [agents[id]] also finds.
      Its prototype is taken to be [Object.prototype] throughout (a
      snapshot with a member named [__proto__] would replace it).  A
      configuration is a record of the type [AgentConfig] declares.
    - Of the log output, the failure lines ([fatal], [warn], and [error]
      of a caught exception) of the API logger are kept. *)

From Stdlib Require Import List String Ascii Bool Arith NArith Lia.
From stdpp Require Import base option list strings pretty gmap fin_maps.

Open Scope string_scope.
Open Scope nat_scope.

(** ** Data model ([shared/types.ts]) *)

(** [AgentStatus.status]. *)
Inductive AgentStatus : Type := idle | running | stopped | error | starting.

Global Instance AgentStatus_eq_dec : EqDecision AgentStatus.
Proof. solve_decision. Defined.

(** [AgentConfig]; the optional [id] is [config_id]. *)
Record AgentConfig : Type := mkConfig {
  startUrl : string;
  headless : bool;
  scrapeData : bool;
  muteAudio : bool;
  config_id : option string
}.

Global Instance AgentConfig_eq_dec : EqDecision AgentConfig.
Proof. solve_decision. Defined.

(** Handles owned by the automation library. *)
Definition Browser : Type := nat.
Definition Page : Type := nat.
Definition ElementHandle : Type := nat.

(** A thrown JavaScript [Error] and its message. *)
Inductive exn : Type := Err (message : string).

(** The settlement of an awaited promise. *)
Inductive outcome (A : Type) : Type :=
| Ok (a : A)
| Throw (e : exn).
Arguments Ok {A} a.
Arguments Throw {A} e.

(** A CSS selector [tag[attr=value]], the only shape the source uses. *)
Record Selector : Type := Sel { sel_tag : string; sel_attr : string; sel_value : string }.

(** The options object of [puppeteer.launch]; times are in milliseconds. *)
Record LaunchOptions : Type := mkLaunch {
  opt_headless : bool;
  opt_args : list string;
  opt_timeout : option N;
  opt_executablePath : option string
}.

(** The options object of [page.waitForSelector]. *)
Record WaitOptions : Type := mkWait {
  opt_visible : bool;
  opt_hidden : bool;
  wait_timeout : N
}.

(** The environment.  Every field but [existsSync], [viewport] and
    [randomUUID] (synchronous calls) and [poll_budget] answers an awaited
    call at the clock value given.  [document_title pg t] is what evaluating
    [document.title] in the page yields at time [t]; [poll_budget ms] is the
    number of times the library re-evaluates a [waitForFunction] predicate
    before a timeout of [ms] milliseconds expires.  [mouse_move] is given the
    viewport size whose centre is the target. *)
Record Env : Type := mkEnv {
  existsSync : string -> nat -> bool;
  launch : LaunchOptions -> nat -> outcome Browser;
  overridePermissions : Browser -> string -> list string -> nat -> outcome unit;
  newPage : Browser -> nat -> outcome Page;
  goto : Page -> string -> nat -> outcome unit;
  document_title : Page -> nat -> outcome string;
  page_close : Page -> nat -> outcome unit;
  browser_close : Browser -> nat -> outcome unit;
  screenshot : Page -> nat -> outcome (list Byte.byte);
  keyboard_press : Page -> string -> nat -> outcome unit;
  waitForSelector : Page -> Selector -> WaitOptions -> nat -> outcome (option ElementHandle);
  page_query : Page -> Selector -> nat -> outcome (option ElementHandle);
  page_queryAll : Page -> Selector -> nat -> outcome (list ElementHandle);
  element_query : ElementHandle -> Selector -> nat -> outcome (option ElementHandle);
  textContent : Page -> ElementHandle -> nat -> outcome (option string);
  element_click : ElementHandle -> nat -> outcome unit;
  viewport : Page -> nat -> option (nat * nat);
  mouse_move : Page -> nat * nat -> nat -> outcome unit;
  clipboard_readText : Page -> nat -> outcome string;
  poll_budget : N -> nat;
  randomUUID : nat -> string;
  file_exists_fails : nat -> option exn;
  file_text_fails : nat -> option exn;
  file_write_fails : nat -> option exn
}.

(** ** Effects: state and exceptions

    An [async] function over a mutable state [S]: it settles with a value
    or a thrown error and leaves a new state. *)

Definition Eff (S A : Type) : Type := S -> outcome A * S.

Definition ret {S A} (a : A) : Eff S A := fun s => (Ok a, s).

Definition throw {S A} (e : exn) : Eff S A := fun s => (Throw e, s).

Definition bind {S A B} (m : Eff S A) (k : A -> Eff S B) : Eff S B :=
  fun s => match m s with
           | (Ok a, s') => k a s'
           | (Throw e, s') => (Throw e, s')
           end.

Declare Scope eff_scope.
Delimit Scope eff_scope with eff.
Notation "x <- m ;; k" := (bind m (fun x => k))
  (at level 100, m at next level, right associativity) : eff_scope.
Notation "m ;; k" := (bind m (fun _ => k))
  (at level 100, right associativity) : eff_scope.
Open Scope eff_scope.

(** [try { body } catch (error) { handler }]. *)
Definition try_catch {S A} (body : Eff S A) (handler : exn -> Eff S A) : Eff S A :=
  fun s => match body s with
           | (Ok a, s') => (Ok a, s')
           | (Throw e, s') => handler e s'
           end.

(** [try { body } finally { final }]: the finaliser always runs, and its own
    exception replaces the outcome of the body. *)
Definition try_finally {S A} (body : Eff S A) (final : Eff S unit) : Eff S A :=
  fun s => match body s with
           | (r, s') => match final s' with
                        | (Ok _, s'') => (r, s'')
                        | (Throw e, s'') => (Throw e, s'')
                        end
           end.

(** ** The agent object and the monad of its methods *)

(** The fields of [PuppeteerAgent]. *)
Record Agent : Type := mkAgent {
  config : AgentConfig;
  browser : option Browser;
  page : option Page;
  status : AgentStatus
}.

(** [new PuppeteerAgent(config)]. *)
Definition new_agent (c : AgentConfig) : Agent :=
  {| config := c; browser := None; page := None; status := idle |}.

(** The state a method runs in: the object, the clock, and the snapshots of
    the object taken at each suspension point (newest first), which is what
    another request could observe while the method is suspended. *)
Record St : Type := mkSt {
  this : Agent;
  now : nat;
  observed : list Agent
}.

Definition M (A : Type) : Type := Eff St A.

(** The state after a suspension point: the object was observable as it
    is, and the clock has advanced. *)
Definition suspended (s : St) : St :=
  {| this := this s; now := S (now s); observed := this s :: observed s |}.

(** [await call]: a suspension point, at which the environment settles the
    promise. *)
Definition await {A} (call : nat -> outcome A) : M A :=
  fun s => (call (now s), suspended s).

(** [await new Promise(resolve => setTimeout(resolve, ms))]. *)
Definition sleep (ms : N) : M unit := await (fun _ => Ok tt).

(** A synchronous call into the environment. *)
Definition sync {A} (call : nat -> A) : M A := fun s => (Ok (call (now s)), s).

Definition get_this : M Agent := fun s => (Ok (this s), s).

Definition set_this (a : Agent) : M unit :=
  fun s => (Ok tt, {| this := a; now := now s; observed := observed s |}).

Definition set_browser (b : option Browser) : M unit :=
  a <- get_this ;;
  set_this {| config := config a; browser := b; page := page a; status := status a |}.

Definition set_page (p : option Page) : M unit :=
  a <- get_this ;;
  set_this {| config := config a; browser := browser a; page := p; status := status a |}.

Definition set_status (st : AgentStatus) : M unit :=
  a <- get_this ;;
  set_this {| config := config a; browser := browser a; page := page a; status := st |}.

Definition chromeDir : string := "C:\Program Files\Google\Chrome\Application".
Definition chromeExe : string := "C:\Program Files\Google\Chrome\Application\chrome.exe".

(** ** The invite-link pattern

    [/https:\/\/jitsi.3git.eu\/[a-zA-Z0-9]+/].  The two dots are unescaped
    in the source and match any character but a line terminator.  A
    character of a [string] stands for one code unit below 256, of which
    LF and CR are the line terminators. *)

Definition is_alnum (c : ascii) : bool :=
  let n := nat_of_ascii c in
  ((48 <=? n)%nat && (n <=? 57)%nat)
  || ((65 <=? n)%nat && (n <=? 90)%nat)
  || ((97 <=? n)%nat && (n <=? 122)%nat).

Definition is_line_terminator (c : ascii) : bool :=
  let n := nat_of_ascii c in (n =? 10)%nat || (n =? 13)%nat.

(** The rest of [s] after the literal [p], when [s] starts with it. *)
Fixpoint strip_prefix (p s : string) : option string :=
  match p with
  | EmptyString => Some s
  | String a p' =>
      match s with
      | String b s' => if Ascii.eqb a b then strip_prefix p' s' else None
      | EmptyString => None
      end
  end.

(** The pattern's [.]. *)
Definition any_char (s : string) : option (ascii * string) :=
  match s with
  | String c r => if is_line_terminator c then None else Some (c, r)
  | EmptyString => None
  end.

(** The longest run of [[a-zA-Z0-9]] at the head of [s] (the greedy [+],
    with which the pattern ends). *)
Fixpoint take_alnum (s : string) : string :=
  match s with
  | String c r => if is_alnum c then String c (take_alnum r) else EmptyString
  | EmptyString => EmptyString
  end.

(** The match that starts at the head of [s], if there is one. *)
Definition match_here (s : string) : option string :=
  r1 ← strip_prefix "https://jitsi" s;
  '(c1, r2) ← any_char r1;
  r3 ← strip_prefix "3git" r2;
  '(c2, r4) ← any_char r3;
  r5 ← strip_prefix "eu/" r4;
  match take_alnum r5 with
  | EmptyString => None
  | tail => Some ("https://jitsi" ++ String c1 ("3git" ++ String c2 ("eu/" ++ tail)))
  end.

(** [inviteLink.match(linkRegex)], reduced to its element [0]: the
    leftmost match. *)
Fixpoint regex_match (s : string) : option string :=
  match match_here s with
  | Some m => Some m
  | None =>
      match s with
      | String _ r => regex_match r
      | EmptyString => None
      end
  end.

(** A string the pattern matches from its first to its last character. *)
Definition invite_link (m : string) : Prop :=
  ∃ (c1 c2 : ascii) (room : string),
    m = "https://jitsi" ++ String c1 ("3git" ++ String c2 ("eu/" ++ room))
    ∧ is_line_terminator c1 = false
    ∧ is_line_terminator c2 = false
    ∧ room ≠ EmptyString
    ∧ (∀ c, In c (list_ascii_of_string room) → is_alnum c = true).

(** ** Selectors and constants of [agent.ts] *)

Definition participants_pane : Selector := Sel "div" "class" "participants_pane".
Definition participants_pane_content : Selector := Sel "div" "class" "participants_pane-content".
Definition close_button : Selector := Sel "button" "aria-label" "Close".
Definition participant_row : Selector := Sel "div" "class" "list-item-container css-1nxmpxc-container".
Definition participant_name : Selector := Sel "div" "class" "css-1lacpev-name".
Definition video_muted_icon : Selector := Sel "svg" "id" "videoMuted".
Definition audio_muted_icon : Selector := Sel "svg" "id" "audioMuted".
Definition invite_button : Selector := Sel "button" "aria-label" "Invite Someone".
Definition copy_invitation : Selector := Sel "div" "aria-label" "Copy meeting invitation".
Definition close_dialog : Selector := Sel "button" "aria-label" "Close dialog".
Definition timer_span : Selector := Sel "span" "class" "css-h6c4xs-timer".

(** The launch flags of [coldStart]. *)
Definition coldStartArgs : list string :=
  ["--no-sandbox"; "--disable-setuid-sandbox"; "--disable-dev-shm-usage";
   "--disable-accelerated-2d-canvas"; "--no-first-run"; "--no-zygote"; "--disable-gpu"].

Definition targetUrl : string := "https://example.com".
Definition expectedTitle : string := "Example Domain".

(** What [getScreenshot] resolves to. *)
Inductive Screenshot : Type :=
| Image (bytes : list Byte.byte)
| js_null
| js_undefined.

(** What the body of an [async] function hands to [return]: a value, or a
    promise that is still pending.  The function's own promise follows a
    returned promise once the body, with its [try] blocks, has been left. *)
Inductive Returned (A : Type) : Type :=
| Value (a : A)
| Pending (call : nat -> outcome A).
Arguments Value {A} a.
Arguments Pending {A} call.

Definition resolve {A} (r : Returned A) : M A :=
  match r with
  | Value a => ret a
  | Pending call => await call
  end.

(** An entry of the list [listParticipants] returns. *)
Record Participant : Type := mkParticipant {
  name : option string;
  videoMuted : bool;
  audioMuted : bool
}.

(** [xs.map(async f)] awaited in order. *)
Fixpoint mapM {A B} (f : A -> M B) (xs : list A) : M (list B) :=
  match xs with
  | [] => ret []
  | x :: xs' => y <- f x ;; ys <- mapM f xs' ;; ret (y :: ys)
  end.

Section AgentMethods.

Variable env : Env.

(** [PuppeteerAgent.stop].  The page is closed inside [try]/[catch] (the
    error is logged); the browser is closed in the [finally] block, outside
    any [catch]. *)
Definition stop : M unit :=
  try_finally
    (try_catch
       (a <- get_this ;;
        match page a with
        | Some pg => await (page_close env pg) ;; set_page None
        | None => ret tt
        end)
       (fun _ => ret tt))
    (a <- get_this ;;
     match browser a with
     | Some b => await (browser_close env b) ;; set_browser None
     | None => ret tt
     end ;;
     set_status stopped).

(** [PuppeteerAgent.getStatus], [getConfig], [getData]. *)
Definition getStatus : M AgentStatus := a <- get_this ;; ret (status a).
Definition getConfig : M AgentConfig := a <- get_this ;; ret (config a).
Definition getData : M (AgentStatus * AgentConfig) :=
  a <- get_this ;; ret (status a, config a).

(** [PuppeteerAgent.start]. *)
Definition start : M bool :=
  try_catch
    (set_status starting ;;
     a <- get_this ;;
     let cfg := config a in
     let startupArgs := if muteAudio cfg then ["--mute-audio"] else [] in
     installed <- sync (existsSync env chromeDir) ;;
     b <- (if installed : bool
           then await (launch env (mkLaunch (headless cfg) startupArgs None (Some chromeExe)))
           else await (launch env (mkLaunch (headless cfg) startupArgs None None))) ;;
     set_browser (Some b) ;;
     await (overridePermissions env b (startUrl cfg) ["clipboard-read"; "clipboard-write"]) ;;
     pg <- await (newPage env b) ;;
     set_page (Some pg) ;;
     try_catch
       (await (goto env pg (startUrl cfg)))
       (fun e => set_status error ;; stop ;; throw e) ;;
     set_status running ;;
     (if scrapeData cfg
      then await (document_title env pg) ;; ret tt
      else ret tt) ;;
     ret true)
    (fun e => set_status error ;; stop ;; throw e).

(** [PuppeteerAgent.getScreenshot].  The promise of [page.screenshot()] is
    returned without [await], so it settles after the [try] block has been
    left; with no page the body falls off its end. *)
Definition getScreenshot : M Screenshot :=
  r <- try_catch
         (a <- get_this ;;
          match page a with
          | Some pg =>
              ret (Pending (fun t => match screenshot env pg t with
                                     | Ok bytes => Ok (Image bytes)
                                     | Throw e => Throw e
                                     end))
          | None => ret (Value js_undefined)
          end)
         (fun _ => ret (Value js_null)) ;;
  resolve r.

(** [PuppeteerAgent._openParticipantsPane]. *)
Definition _openParticipantsPane : M bool :=
  a <- get_this ;;
  match page a with
  | None => ret false
  | Some pg =>
      try_catch
        (await (keyboard_press env pg "p") ;;
         await (waitForSelector env pg participants_pane (mkWait false false 5000)) ;;
         shareDiv <- await (page_query env pg participants_pane) ;;
         shareDivContent <- await (page_query env pg participants_pane_content) ;;
         match shareDiv, shareDivContent with
         | Some _, Some _ => ret true
         | _, _ => ret false
         end)
        (fun _ => ret false)
  end.

(** [PuppeteerAgent._closeParticipantsPane]. *)
Definition _closeParticipantsPane : M unit :=
  a <- get_this ;;
  match page a with
  | None => ret tt
  | Some pg =>
      try_catch
        (await (keyboard_press env pg "p") ;;
         sleep 500 ;;
         shareDivStillOpen <- await (page_query env pg participants_pane) ;;
         match shareDivStillOpen with
         | Some _ =>
             closeButton <- await (page_query env pg close_button) ;;
             match closeButton with
             | Some btn =>
                 await (element_click env btn) ;;
                 await (waitForSelector env pg participants_pane (mkWait false true 5000)) ;;
                 ret tt
             | None =>
                 vp <- sync (viewport env pg) ;;
                 match vp with
                 | Some size => await (mouse_move env pg size) ;; sleep 250
                 | None => ret tt
                 end
             end
         | None => ret tt
         end)
        (fun _ => ret tt)
  end.

(** The callback [listParticipants] maps over the rows. *)
Definition participant_of (pg : Page) (div : ElementHandle) : M Participant :=
  nameElement <- await (element_query env div participant_name) ;;
  nm <- match nameElement with
        | Some el => await (textContent env pg el)
        | None => ret None
        end ;;
  videoElement <- await (element_query env div video_muted_icon) ;;
  audioElement <- await (element_query env div audio_muted_icon) ;;
  ret {| name := nm;
         videoMuted := bool_decide (is_Some videoElement);
         audioMuted := bool_decide (is_Some audioElement) |}.

(** [PuppeteerAgent.listParticipants]; [None] is [null]. *)
Definition listParticipants : M (option (list Participant)) :=
  a <- get_this ;;
  match page a with
  | None => ret None
  | Some pg =>
      try_catch
        (opened <- _openParticipantsPane ;;
         if negb opened then ret None
         else
           participantsDivs <- await (page_queryAll env pg participant_row) ;;
           match participantsDivs with
           | [] => _closeParticipantsPane ;; ret None
           | _ :: _ =>
               participants <- mapM (participant_of pg) participantsDivs ;;
               _closeParticipantsPane ;;
               ret (Some participants)
           end)
        (fun _ => _closeParticipantsPane ;; ret None)
  end.

(** [PuppeteerAgent.clickShareLinkButton]; [None] is [null]. *)
Definition clickShareLinkButton : M (option string) :=
  a <- get_this ;;
  match page a with
  | None => ret None
  | Some pg =>
      try_catch
        (opened <- _openParticipantsPane ;;
         if negb opened then ret None
         else
           inviteBtn <- await (waitForSelector env pg invite_button (mkWait false false 5000)) ;;
           match inviteBtn with
           | None => _closeParticipantsPane ;; ret None
           | Some inviteBtn =>
               await (element_click env inviteBtn) ;;
               shareLinkBtn <- await (waitForSelector env pg copy_invitation (mkWait true false 5000)) ;;
               match shareLinkBtn with
               | None => _closeParticipantsPane ;; ret None
               | Some shareLinkBtn =>
                   await (element_click env shareLinkBtn) ;;
                   closeBtn <- await (waitForSelector env pg close_dialog (mkWait true false 5000)) ;;
                   match closeBtn with
                   | None => _closeParticipantsPane ;; ret None
                   | Some closeBtn =>
                       await (element_click env closeBtn) ;;
                       await (waitForSelector env pg close_dialog (mkWait false true 5000)) ;;
                       _closeParticipantsPane ;;
                       inviteLink <- await (clipboard_readText env pg) ;;
                       viewPort <- sync (viewport env pg) ;;
                       match viewPort with
                       | Some size => await (mouse_move env pg size) ;; sleep 250
                       | None => ret tt
                       end ;;
                       ret (regex_match inviteLink)
                   end
               end
           end)
        (fun _ => _closeParticipantsPane ;; ret None)
  end.

(** [PuppeteerAgent.getMeetingDuration]. *)
Definition getMeetingDuration : M (option string) :=
  a <- get_this ;;
  match page a with
  | None => ret None
  | Some pg =>
      try_catch
        (durationElement <- await (page_query env pg timer_span) ;;
         match durationElement with
         | None => ret None
         | Some el => await (textContent env pg el)
         end)
        (fun _ => ret None)
  end.

(** [page.waitForFunction((title) => document.title === title, {timeout},
    expected)]: the predicate of the source is evaluated in the page until
    it holds; [polls] further evaluations are left before the timeout. *)
Fixpoint waitForTitle (pg : Page) (expected : string) (polls : nat) : M unit :=
  title <- await (document_title env pg) ;;
  if String.eqb title expected then ret tt
  else match polls with
       | O => throw (Err "TimeoutError: Waiting failed")
       | S polls' => waitForTitle pg expected polls'
       end.

(** [PuppeteerAgent.coldStart]. *)
Definition coldStart : M bool :=
  try_catch
    (installed <- sync (existsSync env chromeDir) ;;
     tempBrowser <- (if installed : bool
                     then await (launch env (mkLaunch false coldStartArgs (Some 180000%N) (Some chromeExe)))
                     else await (launch env (mkLaunch false coldStartArgs (Some 180000%N) None))) ;;
     tempPage <- await (newPage env tempBrowser) ;;
     await (goto env tempPage targetUrl) ;;
     waitForTitle tempPage expectedTitle (poll_budget env 10000) ;;
     await (browser_close env tempBrowser) ;;
     ret true)
    (fun _ => ret false).

End AgentMethods.

(** ** The registry and its snapshot file ([utils.ts], [api.ts]) *)

(** The lines the loggers write for failures ([fatal], [warn], and
    [error] given the caught exception); [info], [success] and [debug]
    lines are not kept. *)
Inductive LogEntry : Type :=
| FATAL (message : string)
| WARN (message : string)
| ERROR (e : exn).

(** The process state of the API server: the [agents] object, the content
    of [./agents-data.json] when the file exists, the clock and the log. *)
Record Server : Type := mkServer {
  agents : gmap string Agent;
  file : option string;
  clock : nat;
  log : list LogEntry
}.

(** The monad of the request handlers and of the helpers of [utils.ts]. *)
Definition H (A : Type) : Type := Eff Server A.

Definition get_agents : H (gmap string Agent) := fun srv => (Ok (agents srv), srv).

Definition set_agents (m : gmap string Agent) : H unit :=
  fun srv => (Ok tt, {| agents := m; file := file srv; clock := clock srv; log := log srv |}).

(** [logger.fatal(message)], [logger.warn(message)], [logger.error(e)]. *)
Definition logger (entry : LogEntry) : H unit :=
  fun srv => (Ok tt, {| agents := agents srv; file := file srv; clock := clock srv;
                        log := log srv ++ [entry] |}).

(** [await new Promise(resolve => setTimeout(resolve, ms))] in the
    start-up sequence. *)
Definition tick : H unit :=
  fun srv => (Ok tt, {| agents := agents srv; file := file srv; clock := S (clock srv);
                        log := log srv |}).

(** A whitespace or line-terminator code unit, as [String.prototype.trim]
    removes them (those below 256). *)
Definition is_space (c : ascii) : bool :=
  let n := nat_of_ascii c in
  ((9 <=? n)%nat && (n <=? 13)%nat) || (n =? 32)%nat || (n =? 160)%nat.

(** [!fileContent.trim()]. *)
Definition is_blank (s : string) : bool := forallb is_space (list_ascii_of_string s).

(** [JSON.stringify(_, null, 2)] and [JSON.parse] at the type
    [Record<string, AgentConfig>] the source gives the document, with what
    the language guarantees of them: parsing what was printed gives the value
    back, and a printed object is not blank. *)
Class JsonCodec : Type := {
  stringify : gmap string AgentConfig -> string;
  parse : string -> outcome (gmap string AgentConfig);
  parse_stringify : ∀ doc, parse (stringify doc) = Ok doc;
  stringify_not_blank : ∀ doc, is_blank (stringify doc) = false
}.

(** The property names every plain object inherits from [Object.prototype]:
    [agents[id]] finds a function or an object under each of them, also
    when no agent is registered under that name.  The prototype of
    [agents] is [Object.prototype] unless a snapshot file with a member
    named [__proto__] was loaded, which is left out here. *)
Definition object_prototype_names : list string :=
  ["constructor"; "hasOwnProperty"; "isPrototypeOf"; "propertyIsEnumerable";
   "toLocaleString"; "toString"; "valueOf"; "__proto__"; "__defineGetter__";
   "__defineSetter__"; "__lookupGetter__"; "__lookupSetter__"].

Definition inherited (id : string) : bool :=
  existsb (String.eqb id) object_prototype_names.
#[global] Arguments inherited : simpl never.

(** [!agents[id]] on the plain object [agents]: no agent is registered
    under [id] and [id] is not an inherited property name. *)
Definition missing (ags : gmap string Agent) (id : string) : bool :=
  match ags !! id with
  | Some _ => false
  | None => negb (inherited id)
  end.

(** The module constant [AGENTS_DATA_FILE] of [utils.ts]. *)
Definition AGENTS_DATA_FILE : string := "./agents-data.json".

(** Reading the constant.  [utils.ts] and [api.ts] import each other: with
    [api.ts] as the entry module [utils.ts] is evaluated first and the
    binding is initialised at every call; with [cli.ts] as the entry
    module the body of [api.ts] runs before that of [utils.ts], and a
    function of [utils.ts] it calls finds the binding uninitialised
    ([None]). *)
Definition read_binding (binding : option string) : H string :=
  match binding with
  | Some path => ret path
  | None => throw (Err "ReferenceError: Cannot access 'AGENTS_DATA_FILE' before initialization.")
  end.

Section Registry.

Variable env : Env.
Context {codec : JsonCodec}.

(** [crypto.randomUUID()]; the clock advances so that two draws differ when
    the source of identifiers gives each instant its own. *)
Definition fresh_uuid : H string :=
  fun srv => (Ok (randomUUID env (clock srv)),
              {| agents := agents srv; file := file srv; clock := S (clock srv); log := log srv |}).

(** [await Bun.write(AGENTS_DATA_FILE, text)]; a write that fails leaves
    the file as it was. *)
Definition write_file (text : string) : H unit :=
  fun srv => match file_write_fails env (clock srv) with
             | Some e => (Throw e, {| agents := agents srv; file := file srv;
                                      clock := S (clock srv); log := log srv |})
             | None => (Ok tt, {| agents := agents srv; file := Some text;
                                  clock := S (clock srv); log := log srv |})
             end.

(** [await Bun.file(AGENTS_DATA_FILE).exists()]. *)
Definition file_exists : H bool :=
  fun srv => (match file_exists_fails env (clock srv) with
              | Some e => Throw e
              | None => Ok (bool_decide (is_Some (file srv)))
              end,
              {| agents := agents srv; file := file srv; clock := S (clock srv); log := log srv |}).

(** [await Bun.file(AGENTS_DATA_FILE).text()]. *)
Definition file_text : H string :=
  fun srv => (match file_text_fails env (clock srv), file srv with
              | Some e, _ => Throw e
              | None, Some text => Ok text
              | None, None => Throw (Err "ENOENT: no such file or directory")
              end,
              {| agents := agents srv; file := file srv; clock := S (clock srv); log := log srv |}).

(** [saveAgentsToFile]. *)
Definition saveAgentsToFile (ags : gmap string Agent) : H unit :=
  let agentsToSave : gmap string AgentConfig := config <$> ags in
  try_catch
    (write_file (stringify agentsToSave))
    (fun e =>
       logger (FATAL "Error saving agent configurations to ./agents-data.json:") ;;
       logger (ERROR e)).

(** [loadAgentsFromFile], given the state of the binding of
    [AGENTS_DATA_FILE] at the call.  Nothing in the loop that fills
    [loadedAgents] throws, so the object returned is empty or complete.
    The [catch] clause reads the constant again for its message: with the
    binding uninitialised it throws in turn, and the function rejects.
    The documents considered have no member named [__proto__] (assigning
    it would set the prototype of [loadedAgents] and register nothing). *)
Definition loadAgentsFromFile_at (binding : option string) : H (gmap string Agent) :=
  try_catch
    (path <- read_binding binding ;;
     fileExists <- file_exists ;;
     if negb fileExists
     then logger (WARN ("Agents data file (" +:+ path +:+ ") not found. Starting with no pre-loaded agents.")) ;;
          ret ∅
     else
       read_binding binding ;;
       fileContent <- file_text ;;
       if is_blank fileContent
       then logger (WARN ("Agents data file (" +:+ path +:+ ") is empty. Starting with no pre-loaded agents.")) ;;
            ret ∅
       else
         match parse fileContent with
         | Throw e => throw e
         | Ok agentConfigs => ret (new_agent <$> agentConfigs)
         end)
    (fun e =>
       path <- read_binding binding ;;
       logger (FATAL ("Error loading agent configurations from " +:+ path +:+ ":")) ;;
       logger (ERROR e) ;;
       ret ∅).

(** [loadAgentsFromFile] called once [utils.ts] has been evaluated, as it
    is at the start of [api.ts] run as the entry module and in every
    function of [cli.ts]. *)
Definition loadAgentsFromFile : H (gmap string Agent) :=
  loadAgentsFromFile_at (Some AGENTS_DATA_FILE).

(** [await agents[id].method()]: the method runs on the object stored under
    [id], on the server's clock, and its mutations stay in the object.
    When no agent is stored under [id] the call throws a [TypeError]
    ([agents[id]] is undefined, or an inherited property that has no such
    method); the wording of its message is the engine's and is not
    kept. *)
Definition on_agent {A} (id : string) (method : M A) : H A :=
  fun srv =>
    match agents srv !! id with
    | None => (Throw (Err "TypeError"), srv)
    | Some a =>
        match method {| this := a; now := clock srv; observed := [] |} with
        | (r, s') => (r, {| agents := <[id := this s']> (agents srv); file := file srv;
                            clock := now s'; log := log srv |})
        end
    end.

(** The body and the status code of a response. *)
Inductive ExecData : Type :=
| LinkData (link : option string)
| ParticipantsData (participants : option (list Participant))
| ColdStartData (res : option bool).

Inductive Body : Type :=
| ErrorBody (error : string)
| StatusBody (status : string)
| CreatedBody (agentId : string)
| ExecBody (success : bool) (data : ExecData).

Record Response : Type := mkResponse { http_status : nat; body : Body }.

Definition not_found : H Response :=
  logger (FATAL "Agent not found") ;;
  ret (mkResponse 404 (ErrorBody "Agent not found")).

(** [POST /agent/create]. *)
Definition post_agent_create (cfg : AgentConfig) : H Response :=
  try_catch
    (agentId <- fresh_uuid ;;
     ags <- get_agents ;;
     set_agents (<[agentId := new_agent cfg]> ags) ;;
     ags <- get_agents ;;
     saveAgentsToFile ags ;;
     ret (mkResponse 201 (CreatedBody agentId)))
    (fun e =>
       logger (FATAL "Error creating agent") ;;
       logger (ERROR e) ;;
       ret (mkResponse 500 (ErrorBody "Failed to create agent"))).

(** [POST /agent/:id/start]. *)
Definition post_agent_start (id : string) : H Response :=
  ags <- get_agents ;;
  if missing ags id then not_found
  else
      try_catch
        (res <- on_agent id (start env) ;;
         if negb res
         then logger (FATAL "Error starting agent") ;;
              ret (mkResponse 500 (ErrorBody "Failed to start agent"))
         else ret (mkResponse 200 (StatusBody "Agent started")))
        (fun e =>
           logger (FATAL "Error starting agent:") ;;
           logger (ERROR e) ;;
           ret (mkResponse 500 (ErrorBody "Failed to start agent"))).

(** [POST /agent/:id/stop]. *)
Definition post_agent_stop (id : string) : H Response :=
  ags <- get_agents ;;
  if missing ags id then not_found
  else
      try_catch
        (on_agent id (stop env) ;;
         ret (mkResponse 200 (StatusBody "Agent stopped")))
        (fun e =>
           logger (FATAL "Error stopping agent:") ;;
           logger (ERROR e) ;;
           ret (mkResponse 500 (ErrorBody "Failed to stop agent"))).

(** The configuration of the temporary agent of the [cold_start] command. *)
Definition coldStartConfig : AgentConfig :=
  {| startUrl := "https://example.com"; headless := false; scrapeData := false;
     muteAudio := true; config_id := None |}.

(** [POST /agent/:id/exec] with body [{code}]. *)
Definition post_agent_exec (id : string) (code : string) : H Response :=
  ags <- get_agents ;;
  if missing ags id then not_found
  else
      try_catch
        (if String.eqb code "share_link" then
           result <- on_agent id (clickShareLinkButton env) ;;
           ret (mkResponse 200 (ExecBody (bool_decide (is_Some result)) (LinkData result)))
         else if String.eqb code "list_participants" then
           res1 <- on_agent id (listParticipants env) ;;
           ret (mkResponse 200 (ExecBody (bool_decide (is_Some res1)) (ParticipantsData res1)))
         else if String.eqb code "cold_start" then
           agentId <- fresh_uuid ;;
           ags <- get_agents ;;
           set_agents (<[agentId := new_agent coldStartConfig]> ags) ;;
           res <- on_agent agentId (coldStart env) ;;
           if res : bool
           then ret (mkResponse 200 (ExecBody res (ColdStartData (Some res))))
           else ret (mkResponse 200 (ExecBody false (ColdStartData None)))
         else
           logger (WARN ("Unknown code: " ++ code)) ;;
           ret (mkResponse 400 (ErrorBody "Unknown code")))
        (fun e =>
           logger (FATAL "Error executing code:") ;;
           logger (ERROR e) ;;
           ret (mkResponse 500 (ErrorBody "Failed to execute code"))).

(** [DELETE /agent/:id]. *)
Definition delete_agent (id : string) : H Response :=
  ags <- get_agents ;;
  if missing ags id then not_found
  else
      try_catch
        (on_agent id (stop env) ;;
         ags <- get_agents ;;
         set_agents (delete id ags) ;;
         ags <- get_agents ;;
         saveAgentsToFile ags ;;
         ret (mkResponse 200 (StatusBody "Agent deleted")))
        (fun e =>
           logger (FATAL "Error deleting agent:") ;;
           logger (ERROR e) ;;
           ret (mkResponse 500 (ErrorBody "Failed to delete agent"))).

(** The configuration of the temporary agent of the [--coldstart] flag. *)
Definition startupColdStartConfig : AgentConfig :=
  {| startUrl := "https://example.org"; headless := false; scrapeData := false;
     muteAudio := true; config_id := None |}.

(** The start-up sequence of [api.ts]: the registry is loaded, and with
    [--coldstart] a temporary agent is registered, tried, and on success
    removed again. *)
Definition startup (coldstart : bool) : H unit :=
  loaded <- loadAgentsFromFile ;;
  set_agents loaded ;;
  if coldstart then
    agentId <- fresh_uuid ;;
    ags <- get_agents ;;
    set_agents (<[agentId := new_agent startupColdStartConfig]> ags) ;;
    res <- on_agent agentId (coldStart env) ;;
    if res : bool then
      tick ;;
      ags <- get_agents ;;
      set_agents (delete agentId ags) ;;
      tick
    else ret tt
  else ret tt.

End Registry.

(** The calls a client can make on an agent, one after the other; each
    completes, normally or by throwing, before the next is made. *)
Inductive Call : Type :=
| call_start
| call_stop
| call_getStatus
| call_getConfig
| call_getData
| call_getScreenshot
| call_listParticipants
| call_clickShareLinkButton
| call_getMeetingDuration
| call_coldStart.

Definition run_call (env : Env) (c : Call) (s : St) : St :=
  match c with
  | call_start => snd (start env s)
  | call_stop => snd (stop env s)
  | call_getStatus => snd (getStatus s)
  | call_getConfig => snd (getConfig s)
  | call_getData => snd (getData s)
  | call_getScreenshot => snd (getScreenshot env s)
  | call_listParticipants => snd (listParticipants env s)
  | call_clickShareLinkButton => snd (clickShareLinkButton env s)
  | call_getMeetingDuration => snd (getMeetingDuration env s)
  | call_coldStart => snd (coldStart env s)
  end.

Definition run_calls (env : Env) (cs : list Call) (s : St) : St :=
  fold_left (fun s c => run_call env c s) cs s.

(** The status in which an agent holds a live session. *)
Definition active (a : Agent) : Prop := status a = starting ∨ status a = running.

(** The session fields are set exactly when the agent is active. *)
Definition session_invariant (a : Agent) : Prop :=
  (is_Some (browser a) ↔ active a) ∧ (is_Some (page a) ↔ active a).

(** ** A JSON codec

    A printer and a parser for documents of type
    [Record<string, AgentConfig>], in the layout of
    [JSON.stringify(doc, null, 2)], for strings of code units below 256:
    an instance of the laws of [JsonCodec], on which the persistence
    properties can be run.  It is not the library's text in every respect:
    members are printed in the order of [map_to_list] and fields in the
    order of the interface, where [JSON.stringify] follows insertion
    order, and the parser reads the texts of this printer, not every text
    [JSON.parse] accepts.  Printers take the text that follows as an
    argument. *)
Module Json.

Definition dquote : ascii := "034"%char.
Definition backslash : ascii := "092"%char.
Definition newline : ascii := "010"%char.

(** The literal [a] followed by [rest]. *)
Fixpoint lit (a rest : string) : string :=
  match a with
  | EmptyString => rest
  | String c a' => String c (lit a' rest)
  end.

Definition hex_digit (n : nat) : ascii :=
  ascii_of_nat (if n <? 10 then 48 + n else 87 + n).

Definition hex_value (c : ascii) : option nat :=
  let n := nat_of_ascii c in
  if (48 <=? n) && (n <=? 57) then Some (n - 48)
  else if (97 <=? n) && (n <=? 102) then Some (n - 87)
  else if (65 <=? n) && (n <=? 70) then Some (n - 55)
  else None.

(** One code unit inside a string literal, as [JSON.stringify] quotes it. *)
Definition escape_char (c : ascii) (rest : string) : string :=
  let n := nat_of_ascii c in
  if n =? 34 then String backslash (String dquote rest)
  else if n =? 92 then String backslash (String backslash rest)
  else if n =? 8 then String backslash (String "b" rest)
  else if n =? 12 then String backslash (String "f" rest)
  else if n =? 10 then String backslash (String "n" rest)
  else if n =? 13 then String backslash (String "r" rest)
  else if n =? 9 then String backslash (String "t" rest)
  else if n <? 32 then
    String backslash
      (String "u" (String "0" (String "0"
         (String (hex_digit (n / 16)) (String (hex_digit (n mod 16)) rest)))))
  else String c rest.

Fixpoint escape (s rest : string) : string :=
  match s with
  | EmptyString => rest
  | String c s' => escape_char c (escape s' rest)
  end.

Definition quote (s rest : string) : string :=
  String dquote (escape s (String dquote rest)).

Definition print_bool (b : bool) (rest : string) : string :=
  if b then lit "true" rest else lit "false" rest.

(** The members [ms] of an object, one per line behind [indent], each
    value printed by [pv], and then [close], the line of the closing
    brace. *)
Fixpoint print_members {V} (pv : V -> string -> string) (indent : string)
    (ms : list (string * V)) (close : string) : string :=
  match ms with
  | [] => close
  | (k, v) :: ms' =>
      lit indent $ quote k $ lit ": " $ pv v $
      match ms' with
      | [] => String newline close
      | _ :: _ => lit "," $ String newline $ print_members pv indent ms' close
      end
  end.

(** An object whose members are indented by [indent] and whose closing
    brace is indented by [outer]. *)
Definition print_object {V} (pv : V -> string -> string) (indent outer : string)
    (ms : list (string * V)) (rest : string) : string :=
  match ms with
  | [] => lit "{}" rest
  | _ :: _ => lit "{" $ String newline $ print_members pv indent ms (lit outer (lit "}" rest))
  end.

(** The values of the fields of an [AgentConfig]. *)
Inductive scalar : Type :=
| SStr (s : string)
| SBool (b : bool).

Definition print_scalar (v : scalar) (rest : string) : string :=
  match v with
  | SStr s => quote s rest
  | SBool b => print_bool b rest
  end.

(** The own properties of a configuration; an absent [id] is not one. *)
Definition members_of (c : AgentConfig) : list (string * scalar) :=
  [("startUrl", SStr (startUrl c)); ("headless", SBool (headless c));
   ("scrapeData", SBool (scrapeData c)); ("muteAudio", SBool (muteAudio c))]
  ++ match config_id c with
     | Some i => [("id", SStr i)]
     | None => []
     end.

Definition print_config (c : AgentConfig) (rest : string) : string :=
  print_object print_scalar "    " "  " (members_of c) rest.

Definition print_doc (l : list (string * AgentConfig)) : string :=
  print_object print_config "  " "" l EmptyString.

(** [JSON.stringify(doc, null, 2)]. *)
Definition stringify_text (doc : gmap string AgentConfig) : string :=
  print_doc (map_to_list doc).

(** JSON whitespace. *)
Definition is_ws (c : ascii) : bool :=
  let n := nat_of_ascii c in (n =? 32) || (n =? 9) || (n =? 10) || (n =? 13).

Fixpoint skip_ws (s : string) : string :=
  match s with
  | String c r => if is_ws c then skip_ws r else s
  | EmptyString => EmptyString
  end.

(** A text of whitespace only. *)
Definition blank (a : string) : Prop :=
  ∀ c, In c (list_ascii_of_string a) → is_ws c = true.

(** The character a one-letter escape stands for. *)
Definition simple_escape (e : ascii) : option ascii :=
  let n := nat_of_ascii e in
  if n =? 34 then Some dquote
  else if n =? 92 then Some backslash
  else if n =? 47 then Some "/"%char
  else if n =? 98 then Some "008"%char
  else if n =? 102 then Some "012"%char
  else if n =? 110 then Some "010"%char
  else if n =? 114 then Some "013"%char
  else if n =? 116 then Some "009"%char
  else None.

Definition hex4 (h1 h2 h3 h4 : ascii) : option nat :=
  a ← hex_value h1; b ← hex_value h2; c ← hex_value h3; d ← hex_value h4;
  Some (((a * 16 + b) * 16 + c) * 16 + d).

(** The content of a string literal up to its closing quote, and the text
    after it. *)
Fixpoint read_chars (s : string) : option (string * string) :=
  match s with
  | EmptyString => None
  | String c r =>
      if Ascii.eqb c dquote then Some (EmptyString, r)
      else if Ascii.eqb c backslash then
        match r with
        | String e r1 =>
            match simple_escape e with
            | Some c' =>
                match read_chars r1 with
                | Some (t, rest) => Some (String c' t, rest)
                | None => None
                end
            | None =>
                if Ascii.eqb e "u" then
                  match r1 with
                  | String h1 (String h2 (String h3 (String h4 r2))) =>
                      match hex4 h1 h2 h3 h4 with
                      | Some n =>
                          if n <? 256 then
                            match read_chars r2 with
                            | Some (t, rest) => Some (String (ascii_of_nat n) t, rest)
                            | None => None
                            end
                          else None
                      | None => None
                      end
                  | _ => None
                  end
                else None
            end
        | EmptyString => None
        end
      else if nat_of_ascii c <? 32 then None
      else
        match read_chars r with
        | Some (t, rest) => Some (String c t, rest)
        | None => None
        end
  end.

Definition read_string (s : string) : option (string * string) :=
  match s with
  | String c r => if Ascii.eqb c dquote then read_chars r else None
  | EmptyString => None
  end.

Definition read_scalar (s : string) : option (scalar * string) :=
  match read_string s with
  | Some (t, rest) => Some (SStr t, rest)
  | None =>
      match strip_prefix "true" s with
      | Some rest => Some (SBool true, rest)
      | None =>
          match strip_prefix "false" s with
          | Some rest => Some (SBool false, rest)
          | None => None
          end
      end
  end.

(** The members of an object from its first key on, through the closing
    brace. *)
Fixpoint read_members {V} (read_value : string -> option (V * string))
    (fuel : nat) (s : string) : option (list (string * V) * string) :=
  match fuel with
  | O => None
  | S fuel' =>
      '(k, r1) ← read_string s;
      r2 ← strip_prefix ":" (skip_ws r1);
      '(v, r3) ← read_value (skip_ws r2);
      match skip_ws r3 with
      | String c r4 =>
          if Ascii.eqb c "," then
            '(ms, r5) ← read_members read_value fuel' (skip_ws r4);
            Some ((k, v) :: ms, r5)
          else if Ascii.eqb c "}" then Some ([(k, v)], r4)
          else None
      | EmptyString => None
      end
  end.

Definition read_object {V} (read_value : string -> option (V * string))
    (fuel : nat) (s : string) : option (list (string * V) * string) :=
  r1 ← strip_prefix "{" s;
  match skip_ws r1 with
  | String c r2 =>
      if Ascii.eqb c "}" then Some ([], r2)
      else read_members read_value fuel (String c r2)
  | EmptyString => None
  end.

(** The value of the last member called [k]. *)
Fixpoint field (k : string) (ms : list (string * scalar)) : option scalar :=
  match ms with
  | [] => None
  | (k', v) :: ms' =>
      match field k ms' with
      | Some v' => Some v'
      | None => if String.eqb k k' then Some v else None
      end
  end.

(** The object as an [AgentConfig], when its fields have the types of the
    interface. *)
Definition config_of_members (ms : list (string * scalar)) : option AgentConfig :=
  match field "startUrl" ms, field "headless" ms, field "scrapeData" ms,
        field "muteAudio" ms with
  | Some (SStr u), Some (SBool h), Some (SBool sd), Some (SBool m) =>
      match field "id" ms with
      | None => Some (mkConfig u h sd m None)
      | Some (SStr i) => Some (mkConfig u h sd m (Some i))
      | Some (SBool _) => None
      end
  | _, _, _, _ => None
  end.

Definition read_config (fuel : nat) (s : string) : option (AgentConfig * string) :=
  '(ms, rest) ← read_object read_scalar fuel s;
  c ← config_of_members ms;
  Some (c, rest).

(** [JSON.parse(text) as Record<string, AgentConfig>]: of two members
    with one key the last counts.  A text that is not JSON, or not of this
    type, is refused. *)
Definition parse_text (text : string) : outcome (gmap string AgentConfig) :=
  let fuel := String.length text in
  match read_object (read_config fuel) fuel (skip_ws text) with
  | Some (entries, rest) =>
      match skip_ws rest with
      | EmptyString => Ok (list_to_map (reverse entries))
      | String _ _ => Throw (Err "SyntaxError: JSON Parse error: Unable to parse JSON string")
      end
  | None => Throw (Err "SyntaxError: JSON Parse error: Unable to parse JSON string")
  end.

End Json.

(** ** Concrete environments

    [meeting] is a host without a local Chrome on which every call
    succeeds: the page shows a meeting with two participants, the
    clipboard holds an invitation, and the reference page has its title. *)
Definition meeting : Env := {|
  existsSync := fun _ _ => false;
  launch := fun _ _ => Ok 1;
  overridePermissions := fun _ _ _ _ => Ok tt;
  newPage := fun b _ => Ok (S b);
  goto := fun _ _ _ => Ok tt;
  document_title := fun _ _ => Ok "Example Domain";
  page_close := fun _ _ => Ok tt;
  browser_close := fun _ _ => Ok tt;
  screenshot := fun _ _ => Ok [Byte.x89; Byte.x50; Byte.x4e; Byte.x47];
  keyboard_press := fun _ _ _ => Ok tt;
  waitForSelector := fun _ _ w _ => Ok (if opt_hidden w then None else Some 10);
  page_query := fun _ _ _ => Ok (Some 11);
  page_queryAll := fun _ _ _ => Ok [20; 21];
  element_query := fun el sel _ =>
    Ok (if String.eqb (sel_tag sel) "svg" then (if Nat.even el then Some 30 else None)
        else Some (100 + el));
  textContent := fun _ el _ => Ok (Some (if Nat.even el then "Alice" else "Bob"));
  element_click := fun _ _ => Ok tt;
  viewport := fun _ _ => Some (1280, 720);
  mouse_move := fun _ _ _ => Ok tt;
  clipboard_readText := fun _ _ => Ok "Join the meeting: https://jitsi.3git.eu/DailyStandup42 (no password)";
  poll_budget := fun _ => 3;
  randomUUID := fun t => "agent-" +:+ pretty t;
  file_exists_fails := fun _ => None;
  file_text_fails := fun _ => None;
  file_write_fails := fun _ => None
|}.

Definition with_goto (f : Page -> string -> nat -> outcome unit) (e : Env) : Env :=
  {| existsSync := existsSync e; launch := launch e;
     overridePermissions := overridePermissions e; newPage := newPage e;
     goto := f;
     document_title := document_title e; page_close := page_close e;
     browser_close := browser_close e; screenshot := screenshot e;
     keyboard_press := keyboard_press e; waitForSelector := waitForSelector e;
     page_query := page_query e; page_queryAll := page_queryAll e;
     element_query := element_query e; textContent := textContent e;
     element_click := element_click e; viewport := viewport e;
     mouse_move := mouse_move e; clipboard_readText := clipboard_readText e;
     poll_budget := poll_budget e; randomUUID := randomUUID e;
     file_exists_fails := file_exists_fails e; file_text_fails := file_text_fails e;
     file_write_fails := file_write_fails e |}.

Definition with_browser_close (f : Browser -> nat -> outcome unit) (e : Env) : Env :=
  {| existsSync := existsSync e; launch := launch e;
     overridePermissions := overridePermissions e; newPage := newPage e;
     goto := goto e;
     document_title := document_title e; page_close := page_close e;
     browser_close := f; screenshot := screenshot e;
     keyboard_press := keyboard_press e; waitForSelector := waitForSelector e;
     page_query := page_query e; page_queryAll := page_queryAll e;
     element_query := element_query e; textContent := textContent e;
     element_click := element_click e; viewport := viewport e;
     mouse_move := mouse_move e; clipboard_readText := clipboard_readText e;
     poll_budget := poll_budget e; randomUUID := randomUUID e;
     file_exists_fails := file_exists_fails e; file_text_fails := file_text_fails e;
     file_write_fails := file_write_fails e |}.

Definition with_screenshot (f : Page -> nat -> outcome (list Byte.byte)) (e : Env) : Env :=
  {| existsSync := existsSync e; launch := launch e;
     overridePermissions := overridePermissions e; newPage := newPage e;
     goto := goto e;
     document_title := document_title e; page_close := page_close e;
     browser_close := browser_close e; screenshot := f;
     keyboard_press := keyboard_press e; waitForSelector := waitForSelector e;
     page_query := page_query e; page_queryAll := page_queryAll e;
     element_query := element_query e; textContent := textContent e;
     element_click := element_click e; viewport := viewport e;
     mouse_move := mouse_move e; clipboard_readText := clipboard_readText e;
     poll_budget := poll_budget e; randomUUID := randomUUID e;
     file_exists_fails := file_exists_fails e; file_text_fails := file_text_fails e;
     file_write_fails := file_write_fails e |}.

(** The start URL cannot be reached. *)
Definition unreachable : Env :=
  with_goto (fun _ _ _ => Throw (Err "net::ERR_CONNECTION_REFUSED")) meeting.

(** The browser process no longer answers when asked to close. *)
Definition stuck_browser : Env :=
  with_browser_close (fun _ _ => Throw (Err "Protocol error: Connection closed")) meeting.

(** The page cannot be captured. *)
Definition no_capture : Env :=
  with_screenshot (fun _ _ => Throw (Err "Protocol error (Page.captureScreenshot)")) meeting.

Definition room : AgentConfig :=
  {| startUrl := "https://jitsi.3git.eu/test-paw-cli"; headless := true;
     scrapeData := false; muteAudio := true; config_id := None |}.

(** An agent of [meeting] after a successful [start]. *)
Definition in_meeting : Agent :=
  {| config := room; browser := Some 1; page := Some 2; status := running |}.

(** [m] leaves the fields of the object as they are. *)
Definition keeps_this {A} (m : M A) : Prop := ∀ s, this (snd (m s)) = this s.

(** [m] settles with a value from every state. *)
Definition never_throws {S A} (m : Eff S A) : Prop := ∀ s, ∃ a, fst (m s) = Ok a.

(** A server whose registry holds one agent, in a meeting. *)
Definition one_agent : Server :=
  {| agents := {[ "a1" := in_meeting ]}; file := None; clock := 0; log := [] |}.

(** A registry of two agents, and the process that starts on the file the
    registry was saved to on [meeting]. *)
Definition two_agents : Server :=
  {| agents :=
       {[ "a1" := in_meeting;
          "b2" := {| config := {| startUrl := "https://jitsi.3git.eu/standup";
                                  headless := false; scrapeData := true;
                                  muteAudio := false; config_id := Some "b2" |};
                     browser := None; page := None; status := stopped |} ]};
     file := None; clock := 7; log := [] |}.

Definition rebooted (codec : JsonCodec) : Server :=
  {| agents := ∅;
     file := file (snd (saveAgentsToFile meeting (agents two_agents) two_agents));
     clock := 0; log := [] |}.

(** An agent between two calls, when teardown succeeds: running with a
    session, or idle or stopped without one. *)
Definition at_rest (a : Agent) : Prop :=
  (status a = running ∧ is_Some (browser a) ∧ is_Some (page a))
  ∨ ((status a = idle ∨ status a = stopped) ∧ browser a = None ∧ page a = None).

(** The reference page first shows the expected title at the [k]-th
    evaluation of [document.title] from time [t0] on, within [budget]
    re-evaluations, every earlier evaluation having succeeded. *)
Definition title_seen (env : Env) (pg : Page) (expected : string)
    (t0 budget k : nat) : Prop :=
  k ≤ budget
  ∧ (∀ j, j < k → ∃ title, document_title env pg (t0 + j) = Ok title ∧ title ≠ expected)
  ∧ document_title env pg (t0 + k) = Ok expected.

(** The options [coldStart] launches its browser with. *)
Definition coldStartOptions (installed : bool) : LaunchOptions :=
  if installed
  then mkLaunch false coldStartArgs (Some 180000%N) (Some chromeExe)
  else mkLaunch false coldStartArgs (Some 180000%N) None.


(** The page answers the steps of the invitation dialog: controls waited
    for appear, waits for them to go away resolve, and clicks and mouse
    moves succeed. *)
Definition dialog_cooperates (env : Env) (pg : Page) : Prop :=
  (∀ sel w t, opt_hidden w = false → ∃ el, waitForSelector env pg sel w t = Ok (Some el))
  ∧ (∀ sel w t, opt_hidden w = true → ∃ o, waitForSelector env pg sel w t = Ok o)
  ∧ (∀ el t, element_click env el t = Ok tt)
  ∧ (∀ size t, mouse_move env pg size t = Ok tt).

(** ** Further oracles and constants *)

Definition with_page_close (f : Page -> nat -> outcome unit) (e : Env) : Env :=
  {| existsSync := existsSync e; launch := launch e;
     overridePermissions := overridePermissions e; newPage := newPage e;
     goto := goto e;
     document_title := document_title e; page_close := f;
     browser_close := browser_close e; screenshot := screenshot e;
     keyboard_press := keyboard_press e; waitForSelector := waitForSelector e;
     page_query := page_query e; page_queryAll := page_queryAll e;
     element_query := element_query e; textContent := textContent e;
     element_click := element_click e; viewport := viewport e;
     mouse_move := mouse_move e; clipboard_readText := clipboard_readText e;
     poll_budget := poll_budget e; randomUUID := randomUUID e;
     file_exists_fails := file_exists_fails e; file_text_fails := file_text_fails e;
     file_write_fails := file_write_fails e |}.

(** The page has crashed and cannot be closed. *)
Definition crashed_page : Env :=
  with_page_close (fun _ _ => Throw (Err "Protocol error: Target closed")) meeting.



(** The options [start] launches the browser with. *)
Definition startOptions (cfg : AgentConfig) (installed : bool) : LaunchOptions :=
  mkLaunch (headless cfg) (if muteAudio cfg then ["--mute-audio"] else []) None
           (if installed then Some chromeExe else None).

(** The first character of [s], if any, is not of [[a-zA-Z0-9]]. *)
Definition no_alnum_ahead (s : string) : Prop :=
  match s with
  | EmptyString => True
  | String c _ => is_alnum c = false
  end.

(** ** The read endpoints of [api.ts] *)

(** What the read endpoints answer. *)
Inductive ReadBody : Type :=
| ReadError (error : string)
| KeysBody (ids : list string)
| StatusListBody (entries : list (string * option AgentStatus))
| AgentStatusBody (status : AgentStatus)
| ConfigBody (config : AgentConfig)
| DataBody (status : AgentStatus) (config : AgentConfig)
| ScreenshotBody (image : Screenshot).

Record ReadResponse : Type := mkRead { read_status : nat; read_body : ReadBody }.

(** [Object.keys(agents)], in the order of [map_to_list]. *)
Definition object_keys (ags : gmap string Agent) : list string := (map_to_list ags).*1.

Section ReadEndpoints.

Variable env : Env.

Definition read_not_found : H ReadResponse :=
  logger (FATAL "Agent not found") ;;
  ret (mkRead 404 (ReadError "Agent not found")).

(** [GET /agents.list]. *)
Definition get_agents_list : H ReadResponse :=
  ags <- get_agents ;;
  ret (mkRead 200 (KeysBody (object_keys ags))).

(** [GET /agents.status]: [{id, status: agents[id]?.getStatus()}] for each
    key. *)
Definition get_agents_status : H ReadResponse :=
  ags <- get_agents ;;
  ret (mkRead 200 (StatusListBody ((fun id => (id, status <$> ags !! id))
                                   <$> object_keys ags))).

(** [GET /agent/:id/status]. *)
Definition get_agent_status (id : string) : H ReadResponse :=
  ags <- get_agents ;;
  if missing ags id then read_not_found
  else st <- on_agent id getStatus ;; ret (mkRead 200 (AgentStatusBody st)).

(** [GET /agent/:id/config]. *)
Definition get_agent_config (id : string) : H ReadResponse :=
  ags <- get_agents ;;
  if missing ags id then read_not_found
  else cfg <- on_agent id getConfig ;; ret (mkRead 200 (ConfigBody cfg)).

(** [GET /agent/:id/screenshot]: the handler awaits the screenshot outside
    any [try]. *)
Definition get_agent_screenshot (id : string) : H ReadResponse :=
  ags <- get_agents ;;
  if missing ags id then read_not_found
  else img <- on_agent id (getScreenshot env) ;;
              ret (mkRead 200 (ScreenshotBody img)).

(** [GET /agent/:id]. *)
Definition get_agent (id : string) : H ReadResponse :=
  ags <- get_agents ;;
  if missing ags id then read_not_found
  else d <- on_agent id getData ;; ret (mkRead 200 (DataBody (fst d) (snd d))).

End ReadEndpoints.

(** The handler [h] of an endpoint that takes an agent identifier answers
    the request on [srv]: it returns a response, with 404 exactly when
    [agents[id]] is falsy (no agent is registered under [id], and [id] is
    not a property name that the object inherits), and 200, 400 or 500
    otherwise. *)
Definition answers (id : string) (h : H Response) (srv : Server) : Prop :=
  ∃ r srv',
    h srv = (Ok r, srv')
    ∧ (http_status r = 404 ↔ agents srv !! id = None ∧ inherited id = false)
    ∧ (http_status r = 200 ∨ http_status r = 400 ∨ http_status r = 404
       ∨ http_status r = 500).

(** ** Helpers of [utils.ts] *)

(** The candidates of [returnChromePath]: a pair or a single path. *)
Inductive PathToTry : Type :=
| Candidates (first second : string)
| Single (path : string).

Definition chromeExe86 : string :=
  "C:\Program Files (x86)\Google\Chrome\Application\chrome.exe".

(** The [switch] of [returnChromePath]: the candidates of the platform and
    what is logged for a platform it does not know. *)
Definition pathToTry (runningOS : string) : PathToTry * list LogEntry :=
  if String.eqb runningOS "win32" then (Candidates chromeExe chromeExe86, [])
  else if String.eqb runningOS "linux"
  then (Candidates "/usr/bin/google-chrome" "/opt/google/chrome/chrome", [])
  else if String.eqb runningOS "darwin"
  then (Single "/Applications/Google Chrome.app/Contents/MacOS/Google Chrome", [])
  else (Single "", [FATAL "Unsupported OS for Chrome path retrieval."]).

(** [returnChromePath]: the path returned and the lines logged, given the
    answers of [existsSync]. *)
Definition returnChromePath (existsSync : string -> bool) (runningOS : string)
  : string * list LogEntry :=
  let '(candidates, logged) := pathToTry runningOS in
  match candidates with
  | Candidates first second =>
      if existsSync first then (first, logged)
      else if existsSync second then (second, logged)
      else ("", logged)
  | Single path =>
      if negb (existsSync path)
      then ("", logged ++ [FATAL "Chrome path not found."])%list
      else (path, logged)
  end.

(** [convertDate] on a whole number of seconds: the parts that are not
    zero, largest first, joined by spaces; [0s] when all are zero. *)
Definition convertDate (seconds : N) : string :=
  let days := (seconds / (3600 * 24))%N in
  let hours := ((seconds mod (3600 * 24)) / 3600)%N in
  let minutes := ((seconds mod 3600) / 60)%N in
  let remainingSeconds := (seconds mod 60)%N in
  let parts : list string := [] in
  let parts := if (0 <? days)%N then (parts ++ [pretty days +:+ "g"])%list else parts in
  let parts := if (0 <? hours)%N then (parts ++ [pretty hours +:+ "h"])%list else parts in
  let parts := if (0 <? minutes)%N then (parts ++ [pretty minutes +:+ "m"])%list else parts in
  let parts := if (0 <? remainingSeconds)%N || (length parts =? 0)%nat
               then (parts ++ [pretty remainingSeconds +:+ "s"])%list else parts in
  String.concat " " parts.

(** The value of a decimal digit, and the seconds in the unit a letter of
    [convertDate] names. *)
Definition digit_of (c : ascii) : option N :=
  let n := N_of_ascii c in
  if (48 <=? n)%N && (n <=? 57)%N then Some (n - 48)%N else None.

Definition unit_of (c : ascii) : option N :=
  if Ascii.eqb c "g" then Some 86400%N
  else if Ascii.eqb c "h" then Some 3600%N
  else if Ascii.eqb c "m" then Some 60%N
  else if Ascii.eqb c "s" then Some 1%N
  else None.

(** The number of seconds a text of [convertDate] stands for: each run of
    digits counts in the unit named by the letter after it. *)
Fixpoint seconds_of (text : string) (count total : N) : N :=
  match text with
  | EmptyString => total
  | String c rest =>
      match digit_of c, unit_of c with
      | Some d, _ => seconds_of rest (count * 10 + d)%N total
      | None, Some u => seconds_of rest 0%N (total + count * u)%N
      | None, None => seconds_of rest count total
      end
  end.

(** *** The license check *)

Record ValidateLicenseResponse : Type := mkValidate {
  success : bool;
  valid : bool;
  message : option string
}.

(** The lines [checkLicense] and the license gate of [api.ts] log. *)
Inductive Logged : Type :=
| Info (text : string)
| Success (text : string)
| Fatal (text : string)
| ErrorText (text : string)
| ErrorThrown (e : exn).

Definition note (line : Logged) : Eff (list Logged) unit :=
  fun logged => (Ok tt, (logged ++ [line])%list).

Definition bypassKey : string := "0deeffd4-2933-4065-a96e-1feb2bc8a320".
Definition validateUrl : string := "https://pkrt-license.lyzcoote.cloud/license/validate/".

(** What the process comes to: [process.exit(code)], or the server set up
    on the registry of the start-up sequence. *)
Inductive Process : Type :=
| Exit (code : nat)
| Serving (srv : Server).

Section License.

(** [await fetch(url, ...)] followed by [await validateRes.json()]: the
    body received, or the rejection of either. *)
Variable fetch_json : string -> outcome ValidateLicenseResponse.

(** [checkLicense]. *)
Definition checkLicense (licenseKey : string) : Eff (list Logged) bool :=
  if String.eqb licenseKey bypassKey
  then note (Info "Used bypass key for testing purposes.") ;; ret true
  else
    try_catch
      (validateData <- (fun logged => (fetch_json (validateUrl +:+ licenseKey), logged)) ;;
       if success validateData && valid validateData
       then note (Success "License is valid.") ;; ret true
       else
         note (Fatal "License is invalid or expired.") ;;
         note (ErrorText (match message validateData with
                          | Some (String c text) => String c text
                          | _ => "Unknown error."
                          end)) ;;
         ret false)
      (fun e =>
         note (Fatal "Error checking license:") ;;
         note (ErrorThrown e) ;;
         ret false).

Variable env : Env.
Context {codec : JsonCodec}.

(** The start of [api.ts], from the parsed [--license] and [--coldstart]
    options to the registry the server is set up on. *)
Definition api_main (license : option string) (coldstart : bool) (boot : Server)
  : Process * list Logged :=
  match license with
  | Some (String c key) =>
      match checkLicense (String c key) [] with
      | (Ok true, logged) => (Serving (snd (startup env coldstart boot)), logged)
      | (_, logged) => (Exit 1, logged)
      end
  | _ =>
      (Exit 1, [Fatal "No license provided. Please provide a license key using the --license option."])
  end.

End License.

(** The key is the bypass key, or the license server answers the
    validation request for it with [success] and [valid] both true. *)
Definition licensed (fetch_json : string -> outcome ValidateLicenseResponse)
    (key : string) : Prop :=
  key = bypassKey
  ∨ ∃ resp, fetch_json (validateUrl +:+ key) = Ok resp
            ∧ success resp = true ∧ valid resp = true.

(** ** The command-line interface ([cli.ts]) *)

(** The terminal and the wall clock: what [prompt(question)] returns at an
    instant (null when nothing was typed), [Date.now()], and whether
    [Bun.write] of a screenshot fails. *)
Record Console : Type := mkConsole {
  prompt : string -> nat -> option string;
  date_now : nat -> N;
  screenshot_write_fails : nat -> option exn
}.

(** The state of the CLI process: the module variable [agent], the
    snapshot file, the clock, what the helpers of [utils.ts] log, and the
    screenshot files written.  The lines of the CLI's own logger are not
    kept. *)
Record Cli : Type := mkCli {
  agent : option Agent;
  cli_file : option string;
  cli_clock : nat;
  cli_log : list LogEntry;
  screenshots : list (string * list Byte.byte)
}.

Definition C (A : Type) : Type := Eff Cli A.

Definition defaultStartUrl : string := "https://jitsi.3git.eu/test-paw-cli".

(** [String.prototype.toLowerCase] on the letters [A] to [Z], which is
    all that the comparisons with [yes] and [no] depend on. *)
Definition lower (c : ascii) : ascii :=
  let n := nat_of_ascii c in
  if (65 <=? n)%nat && (n <=? 90)%nat then ascii_of_nat (n + 32) else c.

Fixpoint toLowerCase (s : string) : string :=
  match s with
  | EmptyString => EmptyString
  | String c r => String (lower c) (toLowerCase r)
  end.

(** [parseInt(text, 10)]: leading white space is skipped, a sign is read,
    then the longest run of decimal digits; [None] is [NaN]. *)
Fixpoint skip_space (s : string) : string :=
  match s with
  | String c r => if is_space c then skip_space r else s
  | EmptyString => EmptyString
  end.

Fixpoint read_digits (s : string) (value : option Z) : option Z :=
  match s with
  | String c r =>
      match digit_of c with
      | Some d => read_digits r (Some (default 0%Z value * 10 + Z.of_N d)%Z)
      | None => value
      end
  | EmptyString => value
  end.

Definition parseInt (text : string) : option Z :=
  match skip_space text with
  | String "-" r => Z.opp <$> read_digits r None
  | String "+" r => read_digits r None
  | r => read_digits r None
  end.

(** The temporary configuration of the cold-start test of the menu. *)
Definition coldStartDummy : AgentConfig :=
  {| startUrl := "https://example.com"; headless := true; scrapeData := false;
     muteAudio := true; config_id := Some "cold-start-dummy" |}.

Section CommandLine.

Variable env : Env.
Variable console : Console.
Context {codec : JsonCodec}.

Definition ask (question : string) : C (option string) :=
  fun st => (Ok (prompt console question (cli_clock st)), st).

Definition now_ms : C N := fun st => (Ok (date_now console (cli_clock st)), st).

Definition current : C (option Agent) := fun st => (Ok (agent st), st).

Definition set_current (a : option Agent) : C unit :=
  fun st => (Ok tt, {| agent := a; cli_file := cli_file st; cli_clock := cli_clock st;
                       cli_log := cli_log st; screenshots := screenshots st |}).

(** [await new Promise(resolve => setTimeout(resolve, 100))]. *)
Definition pause : C unit :=
  fun st => (Ok tt, {| agent := agent st; cli_file := cli_file st;
                       cli_clock := S (cli_clock st); cli_log := cli_log st;
                       screenshots := screenshots st |}).

(** A helper of [utils.ts] run by the CLI process. *)
Definition lift_H {A} (m : H A) : C A :=
  fun st =>
    match m {| agents := ∅; file := cli_file st; clock := cli_clock st;
               log := cli_log st |} with
    | (r, srv) => (r, {| agent := agent st; cli_file := file srv; cli_clock := clock srv;
                         cli_log := log srv; screenshots := screenshots st |})
    end.

(** [await agent.method()] on the object the variable [agent] refers to. *)
Definition on_current {A} (method : M A) : C A :=
  fun st =>
    match agent st with
    | None => (Throw (Err "TypeError: null is not an object"), st)
    | Some a =>
        match method {| this := a; now := cli_clock st; observed := [] |} with
        | (r, s') => (r, {| agent := Some (this s'); cli_file := cli_file st;
                            cli_clock := now s'; cli_log := cli_log st;
                            screenshots := screenshots st |})
        end
    end.

(** [await new PuppeteerAgent(config).method()] on an object that is then
    dropped. *)
Definition on_temporary {A} (config : AgentConfig) (method : M A) : C A :=
  fun st =>
    match method {| this := new_agent config; now := cli_clock st; observed := [] |} with
    | (r, s') => (r, {| agent := agent st; cli_file := cli_file st; cli_clock := now s';
                        cli_log := cli_log st; screenshots := screenshots st |})
    end.

(** [await Bun.write(filename, screenshot)]. *)
Definition write_screenshot (filename : string) (bytes : list Byte.byte) : C unit :=
  fun st =>
    match screenshot_write_fails console (cli_clock st) with
    | Some e => (Throw e, {| agent := agent st; cli_file := cli_file st;
                             cli_clock := S (cli_clock st); cli_log := cli_log st;
                             screenshots := screenshots st |})
    | None => (Ok tt, {| agent := agent st; cli_file := cli_file st;
                         cli_clock := S (cli_clock st); cli_log := cli_log st;
                         screenshots := (screenshots st ++ [(filename, bytes)])%list |})
    end.

(** [answer || fallback]. *)
Definition or_else (answer : option string) (fallback : string) : string :=
  match answer with
  | Some (String c r) => String c r
  | _ => fallback
  end.

(** [createNewAgent]. *)
Definition createNewAgent : C (option Agent) :=
  idInput <- ask "Enter Agent ID (e.g., agent1):" ;;
  stamp <- now_ms ;;
  let id := or_else idInput ("agent-" +:+ pretty stamp) in
  urlInput <- ask ("Enter Start URL (default: " +:+ defaultStartUrl +:+ "):") ;;
  let startUrl := or_else urlInput defaultStartUrl in
  headlessInput <- ask "Run in headless mode? (yes/no, default: no):" ;;
  let headless := bool_decide (toLowerCase <$> headlessInput = Some "yes") in
  muteAudioInput <- ask "Mute audio? (yes/no, default: yes):" ;;
  let muteAudio := negb (bool_decide (toLowerCase <$> muteAudioInput = Some "no")) in
  scrapeDataInput <- ask "Scrape data on start? (yes/no, default: no):" ;;
  let scrapeData := bool_decide (toLowerCase <$> scrapeDataInput = Some "yes") in
  ret (Some (new_agent {| startUrl := startUrl; headless := headless;
                          scrapeData := scrapeData; muteAudio := muteAudio;
                          config_id := Some id |})).

(** [loadAgent]. *)
Definition loadAgent : C (option Agent) :=
  loadedAgents <- lift_H (loadAgentsFromFile env) ;;
  let agentIds := object_keys loadedAgents in
  if (length agentIds =? 0)%nat then ret None
  else
    choiceInput <- ask ("Select agent by number (1-" +:+ pretty (length agentIds) +:+ "):") ;;
    match choiceInput with
    | Some (String c r) =>
        match parseInt (String c r) with
        | None => ret None
        | Some choice =>
            if (choice <? 1)%Z || (Z.of_nat (length agentIds) <? choice)%Z then ret None
            else
              match agentIds !! Z.to_nat (choice - 1) with
              | None => ret None
              | Some selectedAgentId => ret (loadedAgents !! selectedAgentId)
              end
        end
    | _ => ret None
    end.

(** [choice] is the string [label] of a [case]. *)
Definition chose (choice : option string) (label : string) : bool :=
  match choice with
  | Some text => String.eqb text label
  | None => false
  end.

(** The status is [running] or [starting]. *)
Definition live (st : AgentStatus) : bool :=
  match st with
  | running | starting => true
  | _ => false
  end.

(** The [switch] of [mainLoop] when no agent is active; [false] is the
    [return] that leaves the loop. *)
Definition menu_without_agent (choice : option string) : C bool :=
  if chose choice "1" then a <- createNewAgent ;; set_current a ;; ret true
  else if chose choice "2" then a <- loadAgent ;; set_current a ;; ret true
  else if chose choice "3" then on_temporary coldStartDummy (coldStart env) ;; ret true
  else if chose choice "0" then ret false
  else ret true.

(** The [switch] of [mainLoop] when an agent is active. *)
Definition menu_with_agent (choice : option string) : C bool :=
  if chose choice "1" then
    st <- on_current getStatus ;;
    match st with
    | running | starting => ret true
    | _ => try_catch (on_current (start env) ;; ret true) (fun _ => ret true)
    end
  else if chose choice "2" then
    st <- on_current getStatus ;;
    match st with
    | stopped | idle => ret true
    | _ => on_current (stop env) ;; ret true
    end
  else if chose choice "3" then on_current getStatus ;; ret true
  else if chose choice "4" then on_current getConfig ;; ret true
  else if chose choice "5" then on_current getData ;; ret true
  else if chose choice "6" then
    st <- on_current getStatus ;;
    match st with
    | running =>
        image <- on_current (getScreenshot env) ;;
        match image with
        | Image bytes =>
            cfg <- on_current getConfig ;;
            stamp <- now_ms ;;
            write_screenshot ("screenshot-" +:+ default "undefined" (config_id cfg)
                              +:+ "-" +:+ pretty stamp +:+ ".png") bytes ;;
            ret true
        | _ => ret true
        end
    | _ => ret true
    end
  else if chose choice "7" then
    st <- on_current getStatus ;;
    match st with
    | running => on_current (listParticipants env) ;; ret true
    | _ => ret true
    end
  else if chose choice "8" then
    st <- on_current getStatus ;;
    match st with
    | running => on_current (clickShareLinkButton env) ;; ret true
    | _ => ret true
    end
  else if chose choice "9" then
    st <- on_current getStatus ;;
    match st with
    | running => on_current (getMeetingDuration env) ;; ret true
    | _ => ret true
    end
  else if chose choice "10" then on_current (coldStart env) ;; ret true
  else if chose choice "11" then
    st <- on_current getStatus ;;
    (if live st then on_current (stop env) else ret tt) ;;
    a <- loadAgent ;;
    set_current a ;;
    ret true
  else if chose choice "12" then
    st <- on_current getStatus ;;
    (if live st then on_current (stop env) else ret tt) ;;
    a <- createNewAgent ;;
    set_current a ;;
    ret true
  else if chose choice "0" then
    st <- on_current getStatus ;;
    (if live st then on_current (stop env) else ret tt) ;;
    ret false
  else ret true.

(** One turn of the [while (true)] of [mainLoop]: [false] when the body
    returned. *)
Definition iteration : C bool :=
  a <- current ;;
  choice <- ask "Enter your choice: " ;;
  continue <- match a with
              | None => menu_without_agent choice
              | Some _ => menu_with_agent choice
              end ;;
  if continue : bool then pause ;; ret true else ret false.

(** [mainLoop], for at most [turns] turns: [false] when it returned,
    [true] when it is still looping. *)
Fixpoint mainLoop (turns : nat) : C bool :=
  match turns with
  | O => ret true
  | S turns' =>
      continue <- iteration ;;
      if continue : bool then mainLoop turns' else ret false
  end.

End CommandLine.

(** The CLI when it starts: no agent, and the snapshot file as it is. *)
Definition cli_started (snapshot : option string) : Cli :=
  {| agent := None; cli_file := snapshot; cli_clock := 0; cli_log := [];
     screenshots := [] |}.

(** The agent the CLI holds, if any, is at rest. *)
Definition cli_at_rest (st : Cli) : Prop := ∀ a, agent st = Some a → at_rest a.

(** [m] keeps the agent of the CLI at rest, and a value it returns
    satisfies [Q]. *)
Definition cli_keeps {A} (m : C A) (Q : A -> Prop) : Prop :=
  ∀ st, cli_at_rest st →
        cli_at_rest (snd (m st)) ∧ ∀ r, fst (m st) = Ok r → Q r.

(** An agent as the constructor leaves it, if any. *)
Definition fresh (r : option Agent) : Prop :=
  ∀ a, r = Some a → ∃ cfg, a = new_agent cfg.

(** A user who answers every menu with [1] and every other question with
    the Enter key. *)
Definition typist : Console :=
  {| prompt := fun question _ =>
                 if String.eqb question "Enter your choice: " then Some "1" else None;
     date_now := fun _ => 1735689600000%N;
     screenshot_write_fails := fun _ => None |}.

(** The choices the menu refuses for the status of the agent: an
    interaction with an agent that is not running, a start of one that is
    running or starting, a stop of one that is stopped or idle. *)
Definition refused (st : AgentStatus) (choice : string) : Prop :=
  (st ≠ running ∧ (choice = "6" ∨ choice = "7" ∨ choice = "8" ∨ choice = "9"))
  ∨ (live st = true ∧ choice = "1")
  ∨ ((st = stopped ∨ st = idle) ∧ choice = "2").

(** A user who answers [2] to every question, and the CLI once it has
    loaded the snapshot of [two_agents]. *)
Definition chooser : Console :=
  {| prompt := fun _ _ => Some "2";
     date_now := fun _ => 0%N;
     screenshot_write_fails := fun _ => None |}.

Definition cli_loaded (codec : JsonCodec) : Cli :=
  {| agent := None; cli_file := file (rebooted codec); cli_clock := 2;
     cli_log := []; screenshots := [] |}.

(** * Properties *)

(** ** Rules for the effects *)

Lemma keeps_ret {A} (a : A) : keeps_this (ret a).
Proof. intros s; reflexivity. Qed.

Lemma keeps_throw {A} (e : exn) : keeps_this (@throw St A e).
Proof. intros s; reflexivity. Qed.

Lemma keeps_await {A} (call : nat -> outcome A) : keeps_this (await call).
Proof. intros s; reflexivity. Qed.

Lemma keeps_sleep ms : keeps_this (sleep ms).
Proof. intros s; reflexivity. Qed.

Lemma keeps_sync {A} (call : nat -> A) : keeps_this (sync call).
Proof. intros s; reflexivity. Qed.

Lemma keeps_get_this : keeps_this get_this.
Proof. intros s; reflexivity. Qed.

Lemma keeps_bind {A B} (m : M A) (k : A -> M B) :
  keeps_this m → (∀ a, keeps_this (k a)) → keeps_this (bind m k).
Proof.
  intros Hm Hk s. unfold bind. specialize (Hm s).
  destruct (m s) as [[a|e] s']; cbn in *.
  - rewrite Hk. exact Hm.
  - exact Hm.
Qed.

Lemma keeps_try_catch {A} (body : M A) (handler : exn -> M A) :
  keeps_this body → (∀ e, keeps_this (handler e)) → keeps_this (try_catch body handler).
Proof.
  intros Hm Hk s. unfold try_catch. specialize (Hm s).
  destruct (body s) as [[a|e] s']; cbn in *.
  - exact Hm.
  - rewrite Hk. exact Hm.
Qed.

Lemma keeps_mapM {A B} (f : A -> M B) (xs : list A) :
  (∀ x, keeps_this (f x)) → keeps_this (mapM f xs).
Proof.
  intros Hf. induction xs as [|x xs IH]; cbn.
  - apply keeps_ret.
  - apply keeps_bind; [apply Hf|]. intros y.
    apply keeps_bind; [exact IH|]. intros ys. apply keeps_ret.
Qed.

Lemma never_throws_try_catch {S A} (body : Eff S A) (handler : exn -> Eff S A) :
  (∀ e, never_throws (handler e)) → never_throws (try_catch body handler).
Proof.
  intros Hh s. unfold try_catch.
  destruct (body s) as [[a|e] s']; cbn; [eauto | apply Hh].
Qed.

Lemma never_throws_ret {S A} (a : A) : never_throws (@ret S A a).
Proof. intros s; cbn; eauto. Qed.

Lemma never_throws_bind {S A B} (m : Eff S A) (k : A -> Eff S B) :
  never_throws m → (∀ a, never_throws (k a)) → never_throws (bind m k).
Proof.
  intros Hm Hk s. unfold bind. destruct (Hm s) as [a Ha].
  destruct (m s) as [r s']; cbn in Ha; subst r. apply Hk.
Qed.

Create HintDb paw discriminated.
#[local] Hint Resolve keeps_ret keeps_throw keeps_await keeps_sleep keeps_sync
  keeps_get_this keeps_mapM never_throws_ret : paw.

(** Peels the frame rules off a composite computation. *)
Ltac frame :=
  repeat first
    [ apply keeps_bind; [|intros ?]
    | apply keeps_try_catch; [|intros ?]
    | apply keeps_mapM; intros ?
    | progress auto with paw
    | match goal with
      | |- keeps_this (match ?x with _ => _ end) => destruct x
      | |- keeps_this (if ?x then _ else _) => destruct x
      end ].

(** ** The interaction routines leave the agent as it is *)

Lemma keeps_openParticipantsPane env : keeps_this (_openParticipantsPane env).
Proof. unfold _openParticipantsPane. frame. Qed.

Lemma keeps_closeParticipantsPane env : keeps_this (_closeParticipantsPane env).
Proof. unfold _closeParticipantsPane. frame. Qed.

Lemma keeps_participant_of env pg div : keeps_this (participant_of env pg div).
Proof. unfold participant_of. frame. Qed.

#[local] Hint Resolve keeps_openParticipantsPane keeps_closeParticipantsPane
  keeps_participant_of : paw.

Lemma keeps_listParticipants env : keeps_this (listParticipants env).
Proof. unfold listParticipants. frame. Qed.

Lemma keeps_clickShareLinkButton env : keeps_this (clickShareLinkButton env).
Proof. unfold clickShareLinkButton. frame. Qed.

Lemma keeps_getMeetingDuration env : keeps_this (getMeetingDuration env).
Proof. unfold getMeetingDuration. frame. Qed.

Lemma keeps_getScreenshot env : keeps_this (getScreenshot env).
Proof. unfold getScreenshot, resolve. frame. Qed.

Lemma keeps_waitForTitle env pg expected polls :
  keeps_this (waitForTitle env pg expected polls).
Proof.
  induction polls as [|n IH]; cbn; frame.
Qed.

#[local] Hint Resolve keeps_waitForTitle : paw.

Lemma keeps_coldStart env : keeps_this (coldStart env).
Proof. unfold coldStart. frame. Qed.

(** ** [stop] and [start] *)

Ltac unfold_agent :=
  unfold start, stop, try_finally, try_catch, bind, get_this, set_page, set_browser,
    set_status, set_this, await, sync, ret, throw in *; cbn in *.

(** Cases on an answer of the environment: the innermost scrutinee. *)
Ltac case_oracle :=
  match goal with
  | |- context [match ?x with _ => _ end] =>
      lazymatch x with
      | context [match _ with _ => _ end] => fail
      | _ => destruct x eqn:?
      end
  end; cbn in *.

(** When closing the page and the browser succeeds, [stop] returns and
    leaves the agent stopped with no session. *)
Lemma stop_when_closes_succeed env s :
  (∀ pg t, page_close env pg t = Ok tt) →
  (∀ b t, browser_close env b t = Ok tt) →
  ∃ s', stop env s = (Ok tt, s')
        ∧ this s' = {| config := config (this s); browser := None; page := None;
                       status := stopped |}.
Proof.
  intros Hp Hb. destruct s as [[c b p st] t o]. unfold_agent.
  destruct p as [pg|], b as [br|]; cbn; rewrite ?Hp; cbn; rewrite ?Hb; cbn; eauto.
Qed.

(** A page that cannot be closed is logged and kept; [stop] still returns
    when the browser closes. *)
Lemma stop_when_browser_closes env s :
  (∀ b t, browser_close env b t = Ok tt) →
  ∃ s', stop env s = (Ok tt, s')
        ∧ status (this s') = stopped
        ∧ browser (this s') = None
        ∧ config (this s') = config (this s).
Proof.
  intros Hb. destruct s as [[c b p st] t o]. unfold_agent.
  destruct p as [pg|]; cbn.
  - destruct (page_close env pg t) as [[]|e]; cbn;
      (destruct b as [br|]; cbn; [rewrite Hb; cbn|]; eauto 10).
  - destruct b as [br|]; cbn; [rewrite Hb; cbn|]; eauto 10.
Qed.

(** What [start] leaves behind when teardown succeeds: a running agent
    with a session, or a stopped one without. *)
Lemma start_when_closes_succeed env s :
  (∀ pg t, page_close env pg t = Ok tt) →
  (∀ b t, browser_close env b t = Ok tt) →
  match start env s with
  | (Ok r, s') =>
      r = true ∧ status (this s') = running
      ∧ is_Some (browser (this s')) ∧ is_Some (page (this s'))
      ∧ config (this s') = config (this s)
  | (Throw _, s') =>
      this s' = {| config := config (this s); browser := None; page := None;
                   status := stopped |}
  end.
Proof.
  intros Hp Hb. destruct s as [[c b p st] t o]. unfold_agent.
  repeat (rewrite ?Hp, ?Hb; cbn; try case_oracle); auto 10.
  all: match goal with
       | H : browser_close _ _ _ = Throw _ |- _ => rewrite Hb in H; discriminate
       | H : page_close _ _ _ = Throw _ |- _ => rewrite Hp in H; discriminate
       end.
Qed.




(** C3.  The agent holds a browser whose [close] rejects.  [stop] then
    rejects with that error instead of returning: the [finally] block
    awaits [browser.close()] outside any [catch], so the assignment of
    [stopped] after it is skipped and the handle is kept.  (Errors of
    [page.close()] are caught and logged, see [stop_when_browser_closes].) *)
Theorem stop_rejects_when_browser_close_rejects env s b e :
  browser (this s) = Some b →
  (∀ t, browser_close env b t = Throw e) →
  ∃ s', stop env s = (Throw e, s')
        ∧ status (this s') = status (this s)
        ∧ browser (this s') = Some b.
Proof.
  intros Hbr Hb. destruct s as [[c b0 p st] t o]. cbn in Hbr; subst b0.
  unfold_agent.
  destruct p as [pg|]; cbn.
  - destruct (page_close env pg t) as [[]|e']; cbn; rewrite Hb; cbn; eauto.
  - rewrite Hb; cbn; eauto.
Qed.

Lemma stop_rejects_witness :
  ∃ s', stop stuck_browser (mkSt in_meeting 0 [])
        = (Throw (Err "Protocol error: Connection closed"), s')
        ∧ status (this s') = running
        ∧ browser (this s') = Some 1.
Proof.
  apply (stop_rejects_when_browser_close_rejects stuck_browser (mkSt in_meeting 0 []));
    intros; reflexivity.
Defined.

(** C9.  The agent has a page whose [screenshot()] rejects.  The promise is
    returned from inside the [try] block without [await], so the [catch]
    that would log the error and return null is never entered and the
    rejection reaches the caller of [getScreenshot]. *)
Theorem getScreenshot_rejection_reaches_caller env s pg e :
  page (this s) = Some pg →
  screenshot env pg (now s) = Throw e →
  ∃ s', getScreenshot env s = (Throw e, s').
Proof.
  intros Hpg He. unfold getScreenshot, try_catch, bind, get_this, ret, resolve, await.
  cbn. rewrite Hpg. cbn. rewrite He. eauto.
Qed.

Lemma getScreenshot_rejection_witness :
  ∃ s', getScreenshot no_capture (mkSt in_meeting 0 [])
        = (Throw (Err "Protocol error (Page.captureScreenshot)"), s').
Proof.
  apply (getScreenshot_rejection_reaches_caller no_capture (mkSt in_meeting 0 []) 2);
    reflexivity.
Defined.

(** With a page whose [screenshot()] resolves, the image is returned; with
    no page the function returns [undefined], not null. *)
Lemma getScreenshot_without_rejection env s :
  match page (this s) with
  | Some pg =>
      ∀ bytes, screenshot env pg (now s) = Ok bytes →
               fst (getScreenshot env s) = Ok (Image bytes)
  | None => getScreenshot env s = (Ok js_undefined, s)
  end.
Proof.
  unfold getScreenshot, try_catch, bind, get_this, ret, resolve, await. cbn.
  destruct (page (this s)) as [pg|]; cbn; [|reflexivity].
  intros bytes Hb. rewrite Hb. reflexivity.
Qed.


Lemma missing_registered (ags : gmap string Agent) id a :
  ags !! id = Some a → missing ags id = false.
Proof. intros Ha. unfold missing. rewrite Ha. reflexivity. Qed.

(** What an endpoint finds under a name no agent is registered under. *)
Lemma on_agent_unregistered {A} id (method : M A) srv :
  agents srv !! id = None →
  on_agent id method srv = (Throw (Err "TypeError"), srv).
Proof. intros Ha. unfold on_agent. rewrite Ha. reflexivity. Qed.


(** ** The session invariant *)

Lemma at_rest_session_invariant a : at_rest a → session_invariant a.
Proof.
  unfold at_rest, session_invariant, active.
  intros [(Hs & Hb & Hp) | (Hs & Hb & Hp)].
  - rewrite Hs. split; split; auto.
  - rewrite Hb, Hp. split; split.
    1,3: intros [x Hx]; discriminate.
    all: intros [H|H]; destruct Hs as [Hs|Hs]; congruence.
Qed.

Lemma at_rest_new_agent c : at_rest (new_agent c).
Proof. right. cbn. auto. Qed.

(** Every call leaves the agent at rest when teardown succeeds. *)
Lemma run_call_at_rest env c s :
  (∀ pg t, page_close env pg t = Ok tt) →
  (∀ b t, browser_close env b t = Ok tt) →
  at_rest (this s) → at_rest (this (run_call env c s)).
Proof.
  intros Hp Hb Hs. destruct c; cbv [run_call].
  - pose proof (start_when_closes_succeed env s Hp Hb) as H.
    destruct (start env s) as [[r|e] s']; cbn.
    + destruct H as (_ & Hst & Hbr & Hpg & _). left. auto.
    + rewrite H. right. cbn. auto.
  - destruct (stop_when_closes_succeed env s Hp Hb) as (s' & Hs' & Ht).
    rewrite Hs'. cbn. rewrite Ht. right. cbn. auto.
  - exact Hs.
  - exact Hs.
  - exact Hs.
  - rewrite keeps_getScreenshot. exact Hs.
  - rewrite keeps_listParticipants. exact Hs.
  - rewrite keeps_clickShareLinkButton. exact Hs.
  - rewrite keeps_getMeetingDuration. exact Hs.
  - rewrite keeps_coldStart. exact Hs.
Qed.

Lemma run_calls_at_rest env cs s :
  (∀ pg t, page_close env pg t = Ok tt) →
  (∀ b t, browser_close env b t = Ok tt) →
  at_rest (this s) → at_rest (this (run_calls env cs s)).
Proof.
  intros Hp Hb. revert s. induction cs as [|c cs IH]; intros s Hs; cbn.
  - exact Hs.
  - apply IH. apply run_call_at_rest; assumption.
Qed.

(** C8, as the code has it.  Between calls, that is once each call made on
    the agent since its creation has completed, the browser handle and the
    page handle are non-null exactly when the status is [starting] or
    [running], provided closing pages and browsers succeeds. *)
Theorem session_invariant_between_calls env cs c t :
  (∀ pg t, page_close env pg t = Ok tt) →
  (∀ b t, browser_close env b t = Ok tt) →
  session_invariant (this (run_calls env cs (mkSt (new_agent c) t []))).
Proof.
  intros Hp Hb. apply at_rest_session_invariant.
  apply run_calls_at_rest; [assumption..|]. apply at_rest_new_agent.
Qed.

Lemma session_invariant_between_calls_witness :
  session_invariant
    (this (run_calls meeting
             [call_start; call_listParticipants; call_clickShareLinkButton;
              call_getScreenshot; call_stop; call_stop; call_start]
             (mkSt (new_agent room) 0 []))).
Proof.
  apply (session_invariant_between_calls meeting); intros; reflexivity.
Defined.

(** C8, as stated, fails inside [start]: at its first suspension point,
    the launch of the browser, the status is already [starting] while both
    handles are still null. *)
Lemma session_invariant_broken_inside_start :
  ¬ Forall session_invariant
      (observed (snd (start meeting (mkSt (new_agent room) 0 [])))).
Proof.
  intros H. rewrite Forall_forall in H.
  assert (Hin : In {| config := room; browser := None; page := None; status := starting |}
                   (observed (snd (start meeting (mkSt (new_agent room) 0 []))))).
  { vm_compute. auto 10. }
  apply list_elem_of_In in Hin.
  destruct (H _ Hin) as [Hbr _]. cbn in Hbr.
  destruct Hbr as [_ Hbr]. destruct Hbr as [x Hx]; [left; reflexivity | discriminate].
Qed.

(** ** [coldStart] *)

Lemma title_seen_unique env pg expected t0 budget k1 k2 :
  title_seen env pg expected t0 budget k1 →
  title_seen env pg expected t0 budget k2 → k1 = k2.
Proof.
  intros (_ & Hlt1 & Hk1) (_ & Hlt2 & Hk2).
  destruct (lt_eq_lt_dec k1 k2) as [[Hlt|Heq]|Hgt]; [|assumption|].
  - destruct (Hlt2 k1 Hlt) as (title & Ht & Hne). congruence.
  - destruct (Hlt1 k2 Hgt) as (title & Ht & Hne). congruence.
Qed.

(** [waitForTitle] returns exactly when the title is seen in time. *)
Lemma waitForTitle_sound env pg expected polls s s' :
  waitForTitle env pg expected polls s = (Ok tt, s') →
  ∃ k, title_seen env pg expected (now s) polls k ∧ now s' = now s + S k.
Proof.
  revert s. induction polls as [|n IH]; intros s; cbn;
    unfold bind, await, ret, throw; cbn;
    destruct (document_title env pg (now s)) as [title|e] eqn:Ht; try discriminate;
    destruct (String.eqb title expected) eqn:Heq.
  1,3: apply String.eqb_eq in Heq; subst title; intros [= <-];
       exists 0; cbn; split; [|lia];
       (split; [lia|]); split; [intros j Hj; lia | rewrite Nat.add_0_r; assumption].
  - discriminate.
  - apply String.eqb_neq in Heq. intros Hw.
    destruct (IH _ Hw) as (k & (Hle & Hlt & Hk) & Hnow). cbn in *.
    exists (S k). split; [|lia]. split; [lia|]. split.
    + intros [|j] Hj.
      * rewrite Nat.add_0_r. eauto.
      * destruct (Hlt j) as (title' & Ht' & Hne); [lia|].
        exists title'. split; [|assumption].
        rewrite <- Ht'. f_equal. lia.
    + rewrite <- Hk. f_equal. lia.
Qed.

Lemma waitForTitle_complete env pg expected polls k s :
  title_seen env pg expected (now s) polls k →
  ∃ s', waitForTitle env pg expected polls s = (Ok tt, s').
Proof.
  revert polls s. induction k as [|k IH]; intros polls s (Hle & Hlt & Hk).
  - rewrite Nat.add_0_r in Hk.
    destruct polls; cbn; unfold bind, await, ret; cbn; rewrite Hk;
      rewrite String.eqb_refl; eauto.
  - destruct polls as [|n]; [lia|].
    destruct (Hlt 0) as (title & Ht & Hne); [lia|]. rewrite Nat.add_0_r in Ht.
    apply String.eqb_neq in Hne.
    cbn. unfold bind, await. cbn. rewrite Ht, Hne.
    apply IH. cbn. split; [lia|]. split.
    + intros j Hj. destruct (Hlt (S j)) as (title' & Ht' & Hne'); [lia|].
      exists title'. split; [|assumption]. rewrite <- Ht'. f_equal. lia.
    + rewrite <- Hk. f_equal. lia.
Qed.

Lemma coldStart_never_throws env : never_throws (coldStart env).
Proof.
  unfold coldStart. apply never_throws_try_catch. intros e. apply never_throws_ret.
Qed.

Lemma coldStart_true_inv env s s' :
  coldStart env s = (Ok true, s') →
  ∃ tempBrowser tempPage k,
    launch env (coldStartOptions (existsSync env chromeDir (now s))) (now s)
    = Ok tempBrowser
    ∧ newPage env tempBrowser (1 + now s) = Ok tempPage
    ∧ goto env tempPage targetUrl (2 + now s) = Ok tt
    ∧ title_seen env tempPage expectedTitle (3 + now s) (poll_budget env 10000) k
    ∧ browser_close env tempBrowser (4 + now s + k) = Ok tt.
Proof.
  unfold coldStart, try_catch, bind, sync, await, ret, coldStartOptions. cbn.
  destruct (existsSync env chromeDir (now s)); cbn;
    (match goal with
     | |- context [launch env ?opts (now s)] =>
         destruct (launch env opts (now s)) as [tb|] eqn:Hl
     end; cbn; [|intros H; discriminate H];
     destruct (newPage env tb (S (now s))) as [tp|] eqn:Hn; cbn;
       [|intros H; discriminate H];
     destruct (goto env tp targetUrl (S (S (now s)))) as [[]|] eqn:Hg; cbn;
       [|intros H; discriminate H];
     match goal with
     | |- context [waitForTitle env tp expectedTitle ?n ?s3] =>
         destruct (waitForTitle env tp expectedTitle n s3) as [[[]|] s4] eqn:Hw
     end; cbn; [|intros H; discriminate H];
     apply waitForTitle_sound in Hw; destruct Hw as (k & Hseen & Hnow);
     cbn in Hseen, Hnow;
     destruct (browser_close env tb (now s4)) as [[]|] eqn:Hc; cbn;
       [|intros H; discriminate H];
     intros _; exists tb, tp, k;
     (split; [reflexivity|]); do 3 (split; [assumption|]);
     rewrite <- Hc; f_equal; lia).
Qed.

Lemma coldStart_true_intro env s tempBrowser tempPage k :
  launch env (coldStartOptions (existsSync env chromeDir (now s))) (now s)
  = Ok tempBrowser →
  newPage env tempBrowser (1 + now s) = Ok tempPage →
  goto env tempPage targetUrl (2 + now s) = Ok tt →
  title_seen env tempPage expectedTitle (3 + now s) (poll_budget env 10000) k →
  browser_close env tempBrowser (4 + now s + k) = Ok tt →
  fst (coldStart env s) = Ok true.
Proof.
  intros Hl Hn Hg Hseen Hc.
  set (s3 := {| this := this s; now := 3 + now s;
                observed := this s :: this s :: this s :: observed s |}).
  destruct (waitForTitle_complete env tempPage expectedTitle _ k s3 Hseen) as (s4 & Hw).
  destruct (waitForTitle_sound _ _ _ _ _ _ Hw) as (k' & Hseen' & Hnow).
  pose proof (title_seen_unique _ _ _ _ _ _ _ Hseen' Hseen) as ->.
  assert (Hc' : browser_close env tempBrowser (now s4) = Ok tt).
  { rewrite Hnow. rewrite <- Hc. f_equal. cbn. lia. }
  unfold coldStart, try_catch, bind, sync, await, ret, coldStartOptions in *. cbn in *.
  destruct (existsSync env chromeDir (now s)); cbn;
    rewrite Hl; cbn; rewrite Hn; cbn; rewrite Hg; cbn;
    match goal with
    | |- context [waitForTitle env tempPage expectedTitle _ ?st] => change st with s3
    end;
    rewrite Hw; cbn; rewrite Hc'; reflexivity.
Qed.

(** C7.  [coldStart] never throws and leaves the agent as it is.  It
    returns [true] exactly when the temporary browser is launched, its page
    is opened, navigation to the reference page succeeds, [document.title]
    is seen to equal ["Example Domain"] before the wait times out, and the
    temporary browser closes; a failure of the launch, of the navigation or
    of the wait therefore yields [false]. *)
Theorem coldStart_true_iff_title_seen env s :
  ∃ b s',
    coldStart env s = (Ok b, s')
    ∧ this s' = this s
    ∧ (b = true ↔
       ∃ tempBrowser tempPage k,
         launch env (coldStartOptions (existsSync env chromeDir (now s))) (now s)
         = Ok tempBrowser
         ∧ newPage env tempBrowser (1 + now s) = Ok tempPage
         ∧ goto env tempPage targetUrl (2 + now s) = Ok tt
         ∧ title_seen env tempPage expectedTitle (3 + now s) (poll_budget env 10000) k
         ∧ browser_close env tempBrowser (4 + now s + k) = Ok tt).
Proof.
  pose proof (keeps_coldStart env s) as Hkeep.
  destruct (coldStart_never_throws env s) as [b Hb].
  destruct (coldStart env s) as [r s'] eqn:Hrun. cbn in Hkeep, Hb. subst r.
  exists b, s'. split; [reflexivity|]. split; [assumption|]. split.
  - intros ->. apply (coldStart_true_inv env s s' Hrun).
  - intros (tb & tp & k & Hl & Hn & Hg & Hseen & Hc).
    pose proof (coldStart_true_intro env s tb tp k Hl Hn Hg Hseen Hc) as H.
    rewrite Hrun in H. cbn in H. congruence.
Qed.

(** ** The interaction routines *)

Lemma openParticipantsPane_returns env s :
  ∃ opened s', _openParticipantsPane env s = (Ok opened, s') ∧ this s' = this s.
Proof.
  pose proof (keeps_openParticipantsPane env s) as Hk.
  assert (Hn : never_throws (_openParticipantsPane env)).
  { intros s0. unfold _openParticipantsPane, bind, get_this. cbn.
    destruct (page (this s0)); [|cbn; eauto].
    apply never_throws_try_catch. intros e. apply never_throws_ret. }
  destruct (Hn s) as [opened Ho].
  destruct (_openParticipantsPane env s) as [r s']. cbn in *. subst r. eauto.
Qed.

Lemma closeParticipantsPane_returns env s :
  ∃ s', _closeParticipantsPane env s = (Ok tt, s') ∧ this s' = this s.
Proof.
  pose proof (keeps_closeParticipantsPane env s) as Hk.
  assert (Hn : never_throws (_closeParticipantsPane env)).
  { intros s0. unfold _closeParticipantsPane, bind, get_this. cbn.
    destruct (page (this s0)); [|cbn; eauto].
    apply never_throws_try_catch. intros e. apply never_throws_ret. }
  destruct (Hn s) as [[] Ho].
  destruct (_closeParticipantsPane env s) as [r s']. cbn in *. subst r. eauto.
Qed.

(** The pane is reported closed when its container does not render in
    time. *)
Lemma openParticipantsPane_timeout env s pg e :
  page (this s) = Some pg →
  waitForSelector env pg participants_pane (mkWait false false 5000) (S (now s)) = Throw e →
  fst (_openParticipantsPane env s) = Ok false.
Proof.
  intros Hpg Hw. unfold _openParticipantsPane, try_catch, bind, get_this, await, ret.
  cbn. rewrite Hpg. cbn.
  destruct (keyboard_press env pg "p" (now s)); cbn; [|reflexivity].
  rewrite Hw. reflexivity.
Qed.

Lemma mapM_length {A B} (f : A -> M B) (xs : list A) s ys s' :
  mapM f xs s = (Ok ys, s') → length ys = length xs.
Proof.
  revert s ys s'. induction xs as [|x xs IH]; intros s ys s'; cbn.
  - unfold ret. intros [= <- _]. reflexivity.
  - unfold bind at 1. destruct (f x s) as [[y|e] s1]; [|discriminate].
    unfold bind at 1. destruct (mapM f xs s1) as [[ys'|e] s2] eqn:Hm; [|discriminate].
    unfold ret. intros [= <- _]. cbn. f_equal. exact (IH _ _ _ Hm).
Qed.

#[local] Arguments _openParticipantsPane : simpl never.
#[local] Arguments _closeParticipantsPane : simpl never.

(** C5.  [listParticipants] never throws and leaves the agent as it is.
    It returns null when there is no page, when the participants pane does
    not open (in particular when its container does not render before the
    timeout), when no participant row is found, and when a step throws;
    otherwise it returns one entry per row found, each with its two
    boolean flags. *)
Theorem listParticipants_null_or_one_entry_per_row env s :
  ∃ r s',
    listParticipants env s = (Ok r, s')
    ∧ this s' = this s
    ∧ match page (this s) with
      | None => r = None
      | Some pg =>
          (∀ e, waitForSelector env pg participants_pane (mkWait false false 5000)
                  (S (now s)) = Throw e → r = None)
          ∧ match _openParticipantsPane env s with
            | (Ok true, s1) =>
                match page_queryAll env pg participant_row (now s1) with
                | Ok (div :: divs) =>
                    match mapM (participant_of env pg) (div :: divs) (suspended s1) with
                    | (Ok participants, _) =>
                        r = Some participants
                        ∧ length participants = length (div :: divs)
                    | (Throw _, _) => r = None
                    end
                | Ok [] => r = None
                | Throw _ => r = None
                end
            | (_, _) => r = None
            end
      end.
Proof.
  pose proof (keeps_listParticipants env s) as Hk.
  destruct (listParticipants env s) as [r0 s'] eqn:Hrun. cbn in Hk.
  unfold listParticipants in Hrun. unfold bind at 1 in Hrun.
  unfold get_this in Hrun. cbn in Hrun.
  destruct (page (this s)) as [pg|] eqn:Hpg.
  2: { inversion Hrun; subst. eauto. }
  pose proof (fun e => openParticipantsPane_timeout env s pg e Hpg) as Hto.
  unfold try_catch, bind, await, ret in Hrun.
  destruct (openParticipantsPane_returns env s) as (opened & s1 & Ho & _).
  rewrite Ho in *. cbn in *.
  destruct opened; cbn in *.
  2: { inversion Hrun; subst. eauto 10. }
  assert (Hto' : ∀ (r : option (list Participant)) e,
            waitForSelector env pg participants_pane (mkWait false false 5000)
              (S (now s)) = Throw e → r = None).
  { intros r e He. specialize (Hto e He). discriminate. }
  destruct (page_queryAll env pg participant_row (now s1)) as [[|div divs]|e] eqn:Hq;
    cbn in *.
  - destruct (closeParticipantsPane_returns env (suspended s1)) as (s2 & Hc & _).
    rewrite Hc in Hrun. inversion Hrun; subst. eauto 10.
  - destruct (mapM (participant_of env pg) (div :: divs) (suspended s1))
      as [[ps|e] s2] eqn:Hm; cbn in *.
    + destruct (closeParticipantsPane_returns env s2) as (s3 & Hc & _).
      rewrite Hm in Hrun. rewrite Hc in Hrun. inversion Hrun; subst.
      pose proof (mapM_length (participant_of env pg) (div :: divs) _ _ _ Hm) as Hlen.
      cbn in Hlen. exists (Some ps), s'. rewrite Hm. eauto 10.
    + destruct (closeParticipantsPane_returns env s2) as (s3 & Hc & _).
      rewrite Hm in Hrun. rewrite Hc in Hrun. inversion Hrun; subst.
      exists None, s'. rewrite Hm. eauto 10.
  - destruct (closeParticipantsPane_returns env (suspended s1)) as (s2 & Hc & _).
    rewrite Hc in Hrun. inversion Hrun; subst. eauto 10.
Qed.

(** *** The invite-link pattern *)

Lemma strip_prefix_app p s r : strip_prefix p s = Some r → s = p ++ r.
Proof.
  revert s. induction p as [|a p IH]; intros s; cbn.
  - intros [= ->]. reflexivity.
  - destruct s as [|b s]; [discriminate|].
    destruct (Ascii.eqb a b) eqn:Hab; [|discriminate].
    apply Ascii.eqb_eq in Hab. subst b. intros H.
    change (String a s = String a (p +:+ r)). f_equal. apply IH, H.
Qed.

Lemma take_alnum_all s c :
  In c (list_ascii_of_string (take_alnum s)) → is_alnum c = true.
Proof.
  induction s as [|a s IH]; cbn; [tauto|].
  destruct (is_alnum a) eqn:Ha; cbn; [|tauto].
  intros [<-|H]; auto.
Qed.

Lemma match_here_invite_link s m : match_here s = Some m → invite_link m.
Proof.
  unfold match_here.
  destruct (strip_prefix "https://jitsi" s) as [r1|]; cbn [mbind option_bind];
    [|discriminate].
  destruct (any_char r1) as [[c1 r2]|] eqn:H1; cbn [mbind option_bind]; [|discriminate].
  destruct (strip_prefix "3git" r2) as [r3|]; cbn [mbind option_bind]; [|discriminate].
  destruct (any_char r3) as [[c2 r4]|] eqn:H2; cbn [mbind option_bind]; [|discriminate].
  destruct (strip_prefix "eu/" r4) as [r5|]; cbn [mbind option_bind]; [|discriminate].
  destruct (take_alnum r5) as [|a tail] eqn:Ht; [discriminate|].
  intros [= <-]. exists c1, c2, (String a tail).
  split; [reflexivity|].
  assert (Hany : ∀ r c r', any_char r = Some (c, r') → is_line_terminator c = false).
  { intros r c r'. unfold any_char. destruct r as [|x r0]; [discriminate|].
    destruct (is_line_terminator x) eqn:Hx; [discriminate|]. intros [= <- _]. exact Hx. }
  split; [eapply Hany, H1|]. split; [eapply Hany, H2|]. split; [discriminate|].
  intros c Hc. rewrite <- Ht in Hc. eapply take_alnum_all, Hc.
Qed.


Lemma append_cons a (s r : string) : String a s +:+ r = String a (s +:+ r).
Proof. reflexivity. Qed.

Lemma strip_prefix_complete p r : strip_prefix p (p +:+ r) = Some r.
Proof.
  induction p as [|a p IH]; [reflexivity|].
  rewrite append_cons. cbn [strip_prefix]. rewrite Ascii.eqb_refl. exact IH.
Qed.

Lemma take_alnum_app room post :
  (∀ c, In c (list_ascii_of_string room) → is_alnum c = true) →
  take_alnum (room +:+ post) = room +:+ take_alnum post.
Proof.
  induction room as [|a room IH]; intros Hall; [reflexivity|].
  rewrite !append_cons. cbn [take_alnum].
  rewrite (Hall a) by (left; reflexivity). f_equal. apply IH.
  intros c Hc. apply Hall. right. exact Hc.
Qed.

Lemma take_alnum_split s :
  ∃ post, s = take_alnum s +:+ post ∧ no_alnum_ahead post.
Proof.
  induction s as [|a s (post & Hs & Hpost)]; cbn [take_alnum].
  - exists "". split; [reflexivity | exact I].
  - destruct (is_alnum a) eqn:Ha.
    + exists post. split; [|exact Hpost]. rewrite append_cons. f_equal. exact Hs.
    + exists (String a s). split; [reflexivity | exact Ha].
Qed.

Lemma any_char_inv r c r' :
  any_char r = Some (c, r') → r = String c r' ∧ is_line_terminator c = false.
Proof.
  destruct r as [|x r0]; cbn; [discriminate|].
  destruct (is_line_terminator x) eqn:Hx; [discriminate|].
  intros [= <- <-]. auto.
Qed.

Lemma match_here_occurs s m :
  match_here s = Some m → ∃ post, s = m +:+ post ∧ no_alnum_ahead post.
Proof.
  unfold match_here.
  destruct (strip_prefix "https://jitsi" s) as [r1|] eqn:E1; cbn [mbind option_bind];
    [|discriminate].
  destruct (any_char r1) as [[c1 r2]|] eqn:H1; cbn [mbind option_bind]; [|discriminate].
  destruct (strip_prefix "3git" r2) as [r3|] eqn:E3; cbn [mbind option_bind];
    [|discriminate].
  destruct (any_char r3) as [[c2 r4]|] eqn:H2; cbn [mbind option_bind]; [|discriminate].
  destruct (strip_prefix "eu/" r4) as [r5|] eqn:E5; cbn [mbind option_bind];
    [|discriminate].
  destruct (take_alnum_split r5) as (post & Hr5 & Hpost).
  destruct (take_alnum r5) as [|a tail] eqn:Ht; [discriminate|].
  intros [= <-]. exists post. split; [|exact Hpost].
  apply strip_prefix_app in E1, E3, E5.
  apply any_char_inv in H1 as [-> _]. apply any_char_inv in H2 as [-> _].
  subst s r2 r4. rewrite Hr5. reflexivity.
Qed.

Lemma match_here_complete m post :
  invite_link m → ∃ m', match_here (m +:+ post) = Some m'.
Proof.
  intros (c1 & c2 & room & -> & H1 & H2 & Hroom & Hall).
  unfold match_here.
  change (("https://jitsi" +:+ String c1 ("3git" +:+ String c2 ("eu/" +:+ room)))
          +:+ post)
    with ("https://jitsi" +:+ String c1 ("3git" +:+ String c2 ("eu/" +:+ room +:+ post))).
  rewrite strip_prefix_complete. cbn [mbind option_bind any_char]. rewrite H1.
  cbn [mbind option_bind]. rewrite strip_prefix_complete.
  cbn [mbind option_bind any_char]. rewrite H2.
  cbn [mbind option_bind]. rewrite strip_prefix_complete. cbn [mbind option_bind].
  rewrite take_alnum_app by exact Hall.
  destruct room as [|a room]; [congruence|]. rewrite append_cons. eauto.
Qed.

Lemma match_here_none s m post :
  match_here s = None → s = m +:+ post → ¬ invite_link m.
Proof.
  intros Hnone -> Hm. destruct (match_here_complete m post Hm) as [m' Hm'].
  congruence.
Qed.



Example regex_match_invitation :
  regex_match "Join the meeting: https://jitsi.3git.eu/DailyStandup42 (no password)"
  = Some "https://jitsi.3git.eu/DailyStandup42".
Proof. reflexivity. Qed.

Example regex_match_unescaped_dots :
  regex_match "see https://jitsi-3git_eu/room" = Some "https://jitsi-3git_eu/room".
Proof. reflexivity. Qed.

Example regex_match_other_domain :
  regex_match "https://meet.example.org/room" = None.
Proof. reflexivity. Qed.

(** *** [clickShareLinkButton] *)








(** ** The registry *)

Lemma on_agent_agents {A} id (method : M A) srv a :
  agents srv !! id = Some a →
  on_agent id method srv
  = (fst (method {| this := a; now := clock srv; observed := [] |}),
     {| agents := <[id := this (snd (method {| this := a; now := clock srv;
                                               observed := [] |}))]> (agents srv);
        file := file srv;
        clock := now (snd (method {| this := a; now := clock srv; observed := [] |}));
        log := log srv |}).
Proof.
  intros Ha. unfold on_agent. rewrite Ha.
  destruct (method _) as [r s']. reflexivity.
Qed.

(** C2.  A client asks an agent of the registry to run the [cold_start]
    command.  The handler stores the temporary agent it creates in the
    registry under a fresh identifier and never removes it: after the
    request the registry has one agent more, whatever the cold start
    returned. *)
Theorem exec_cold_start_registers_agent env srv id a :
  agents srv !! id = Some a →
  agents srv !! randomUUID env (clock srv) = None →
  agents (snd (post_agent_exec env id "cold_start" srv))
  = <[randomUUID env (clock srv) := new_agent coldStartConfig]> (agents srv)
  ∧ size (agents (snd (post_agent_exec env id "cold_start" srv))) = S (size (agents srv)).
Proof.
  intros Ha Hfresh.
  assert (Hmap : agents (snd (post_agent_exec env id "cold_start" srv))
                 = <[randomUUID env (clock srv) := new_agent coldStartConfig]> (agents srv)).
  { unfold post_agent_exec. unfold bind at 1. unfold get_agents. cbn.
    rewrite (missing_registered _ _ _ Ha). unfold try_catch. cbn.
    unfold bind, fresh_uuid, get_agents, set_agents, ret. cbn.
    set (uuid := randomUUID env (clock srv)).
    pose proof (keeps_coldStart env
                  {| this := new_agent coldStartConfig; now := S (clock srv);
                     observed := [] |}) as Hk.
    destruct (coldStart_never_throws env
                {| this := new_agent coldStartConfig; now := S (clock srv);
                   observed := [] |}) as [res Hres].
    unfold on_agent. cbn. rewrite lookup_insert_eq.
    destruct (coldStart env _) as [r s']. cbn in Hk, Hres. subst r. cbn.
    rewrite Hk. destruct res; cbn; apply insert_insert_eq. }
  split; [exact Hmap|].
  rewrite Hmap. apply map_size_insert_None. exact Hfresh.
Qed.

Lemma exec_cold_start_registers_agent_witness :
  agents (snd (post_agent_exec meeting "a1" "cold_start" one_agent))
  = <[randomUUID meeting (clock one_agent) := new_agent coldStartConfig]> (agents one_agent)
  ∧ size (agents (snd (post_agent_exec meeting "a1" "cold_start" one_agent)))
    = S (size (agents one_agent)).
Proof.
  apply (exec_cold_start_registers_agent meeting one_agent "a1" in_meeting);
    vm_compute; reflexivity.
Defined.

(** The [start] and [stop] endpoints and the [share_link],
    [list_participants] and unknown commands of [exec] keep the set of
    registered identifiers. *)
Lemma on_agent_dom {A} id (method : M A) srv :
  is_Some (agents srv !! id) →
  dom (agents (snd (on_agent id method srv))) = dom (agents srv).
Proof.
  intros [a Ha]. rewrite (on_agent_agents id method srv a Ha). cbn.
  rewrite dom_insert_L. apply subseteq_union_1_L, singleton_subseteq_l.
  eapply elem_of_dom_2, Ha.
Qed.

Lemma on_agent_dom_any {A} id (method : M A) srv :
  dom (agents (snd (on_agent id method srv))) = dom (agents srv).
Proof.
  destruct (agents srv !! id) as [a|] eqn:Ha.
  - apply on_agent_dom. eauto.
  - rewrite (on_agent_unregistered id method srv Ha). reflexivity.
Qed.

Lemma post_agent_start_dom env id srv :
  dom (agents (snd (post_agent_start env id srv))) = dom (agents srv).
Proof.
  unfold post_agent_start. unfold bind at 1. unfold get_agents. cbn.
  destruct (missing (agents srv) id); [reflexivity|].
  pose proof (on_agent_dom_any id (start env) srv) as Hd.
  unfold try_catch, bind. destruct (on_agent id (start env) srv) as [[r|e] srv1];
    cbn in *; [destruct r|]; cbn; exact Hd.
Qed.

Lemma post_agent_stop_dom env id srv :
  dom (agents (snd (post_agent_stop env id srv))) = dom (agents srv).
Proof.
  unfold post_agent_stop. unfold bind at 1. unfold get_agents. cbn.
  destruct (missing (agents srv) id); [reflexivity|].
  pose proof (on_agent_dom_any id (stop env) srv) as Hd.
  unfold try_catch, bind. destruct (on_agent id (stop env) srv) as [[r|e] srv1];
    cbn in *; exact Hd.
Qed.

Lemma post_agent_exec_dom env id code srv :
  code ≠ "cold_start" →
  dom (agents (snd (post_agent_exec env id code srv))) = dom (agents srv).
Proof.
  intros Hcode. apply String.eqb_neq in Hcode.
  unfold post_agent_exec. unfold bind at 1. unfold get_agents. cbn.
  destruct (missing (agents srv) id); [reflexivity|].
  unfold try_catch. rewrite Hcode.
  destruct (String.eqb code "share_link").
  - pose proof (on_agent_dom_any id (clickShareLinkButton env) srv) as Hd.
    unfold bind. destruct (on_agent id (clickShareLinkButton env) srv) as [[r|e] srv1];
      cbn in *; exact Hd.
  - destruct (String.eqb code "list_participants").
    + pose proof (on_agent_dom_any id (listParticipants env) srv) as Hd.
      unfold bind. destruct (on_agent id (listParticipants env) srv) as [[r|e] srv1];
        cbn in *; exact Hd.
    + reflexivity.
Qed.

(** ** JSON text: reading what was printed *)

Module JsonFacts.
Import Json.

Lemma read_chars_escape_char c rest :
  read_chars (escape_char c rest)
  = match read_chars rest with
    | Some (t, r) => Some (String c t, r)
    | None => None
    end.
Proof.
  destruct c as [[] [] [] [] [] [] [] []]; reflexivity.
Qed.

Lemma read_chars_escape s rest :
  read_chars (escape s (String dquote rest)) = Some (s, rest).
Proof.
  induction s as [|c s IH]; [reflexivity|].
  cbn [escape]. rewrite read_chars_escape_char, IH. reflexivity.
Qed.

Lemma read_string_quote s rest : read_string (quote s rest) = Some (s, rest).
Proof. unfold quote. cbn. apply read_chars_escape. Qed.

Lemma read_scalar_print v rest : read_scalar (print_scalar v rest) = Some (v, rest).
Proof.
  destruct v as [s|[]]; cbn [print_scalar]; [|reflexivity..].
  unfold read_scalar. rewrite read_string_quote. reflexivity.
Qed.

Lemma skip_ws_scalar v rest : skip_ws (print_scalar v rest) = print_scalar v rest.
Proof. destruct v as [s|[]]; reflexivity. Qed.

Lemma skip_ws_lit a rest : blank a → skip_ws (lit a rest) = skip_ws rest.
Proof.
  induction a as [|c a IH]; intros Ha; [reflexivity|].
  cbn [lit skip_ws]. rewrite (Ha c) by (left; reflexivity).
  apply IH. intros c' Hc'. apply Ha. right. exact Hc'.
Qed.

Lemma blank_spaces2 : blank "  ".
Proof. intros c [<-|[<-|[]]]; reflexivity. Qed.

Lemma blank_spaces4 : blank "    ".
Proof. intros c [<-|[<-|[<-|[<-|[]]]]]; reflexivity. Qed.

Lemma blank_empty : blank "".
Proof. intros c []. Qed.

Section Members.

Context {V : Type}.
Variable pv : V -> string -> string.
Variable rv : string -> option (V * string).
Hypothesis rv_pv : ∀ v r, rv (pv v r) = Some (v, r).
Hypothesis pv_solid : ∀ v r, skip_ws (pv v r) = pv v r.

(** One member is read, and then what follows its value decides. *)
Lemma read_members_step fuel k v R :
  read_members rv (S fuel) (quote k (lit ": " (pv v R)))
  = match skip_ws R with
    | String c r4 =>
        if Ascii.eqb c "," then
          '(ms, r5) ← read_members rv fuel (skip_ws r4);
          Some ((k, v) :: ms, r5)
        else if Ascii.eqb c "}" then Some ([(k, v)], r4)
        else None
    | EmptyString => None
    end.
Proof.
  cbn [read_members]. rewrite read_string_quote. cbn [mbind option_bind].
  change (skip_ws (lit ": " (pv v R))) with (String ":"%char (String " "%char (pv v R))).
  change (strip_prefix ":" (String ":"%char (String " "%char (pv v R))))
    with (Some (String " "%char (pv v R))).
  cbn [mbind option_bind].
  change (skip_ws (String " "%char (pv v R))) with (skip_ws (pv v R)).
  rewrite pv_solid, rv_pv. reflexivity.
Qed.

Lemma read_members_print indent ms close rest n :
  blank indent →
  skip_ws close = String "}"%char rest →
  ms ≠ [] →
  read_members rv (length ms + n) (skip_ws (print_members pv indent ms close))
  = Some (ms, rest).
Proof.
  intros Hi Hc. induction ms as [|[k v] ms' IH]; intros Hne; [done|].
  cbn [print_members length Nat.add].
  rewrite (skip_ws_lit indent _ Hi).
  change (skip_ws (quote k ?x)) with (quote k x).
  rewrite read_members_step.
  destruct ms' as [|m' ms''].
  - change (skip_ws (String newline close)) with (skip_ws close).
    rewrite Hc. reflexivity.
  - change (skip_ws (lit "," ?x)) with (String ","%char x).
    cbv beta iota. change (Ascii.eqb "," ",") with true. cbv iota.
    change (skip_ws (String newline ?x)) with (skip_ws x).
    rewrite IH by done. reflexivity.
Qed.

Lemma read_object_print indent outer ms rest n :
  blank indent → blank outer →
  read_object rv (length ms + n) (print_object pv indent outer ms rest) = Some (ms, rest).
Proof.
  intros Hi Ho. unfold read_object, print_object. destruct ms as [|[k v] ms'].
  - reflexivity.
  - change (strip_prefix "{" (lit "{" ?x)) with (Some x). cbn [mbind option_bind].
    change (skip_ws (String newline ?x)) with (skip_ws x).
    assert (Hc : skip_ws (lit outer (lit "}" rest)) = String "}"%char rest).
    { rewrite (skip_ws_lit outer _ Ho). reflexivity. }
    pose proof (read_members_print indent ((k, v) :: ms') _ rest n Hi Hc) as H.
    specialize (H ltac:(done)).
    cbn [print_members] in *. rewrite (skip_ws_lit indent _ Hi) in *.
    change (skip_ws (quote k ?x)) with (String dquote (escape k (String dquote x))) in *.
    cbv beta iota. change (Ascii.eqb dquote "}") with false. cbv iota.
    exact H.
Qed.

End Members.

(** *** Lengths, which bound the fuel *)

Lemma length_lit a r : String.length (lit a r) = String.length a + String.length r.
Proof. induction a as [|c a IH]; cbn; [reflexivity|]. rewrite IH. reflexivity. Qed.

Lemma length_escape_char c r : String.length r ≤ String.length (escape_char c r).
Proof.
  destruct c as [[] [] [] [] [] [] [] []]; vm_compute; lia.
Qed.

Lemma length_escape s r : String.length r ≤ String.length (escape s r).
Proof.
  induction s as [|c s IH]; cbn [escape]; [lia|].
  etransitivity; [exact IH | apply length_escape_char].
Qed.

Lemma length_quote s r : 2 + String.length r ≤ String.length (quote s r).
Proof.
  unfold quote. cbn [String.length].
  pose proof (length_escape s (String dquote r)) as H. cbn [String.length] in H. lia.
Qed.

Lemma length_print_members {V} (pv : V -> string -> string) indent ms close :
  (∀ v r, String.length r ≤ String.length (pv v r)) →
  String.length close + 5 * length ms ≤ String.length (print_members pv indent ms close).
Proof.
  intros Hpv. induction ms as [|[k v] ms' IH]; cbn [print_members length]; [lia|].
  rewrite length_lit.
  pose proof (length_quote k (lit ": " (pv v
                match ms' with
                | [] => String newline close
                | _ :: _ => lit "," (String newline (print_members pv indent ms' close))
                end))) as Hq.
  rewrite length_lit in Hq.
  pose proof (Hpv v match ms' with
                    | [] => String newline close
                    | _ :: _ => lit "," (String newline (print_members pv indent ms' close))
                    end) as Hv.
  destruct ms' as [|m' ms'']; cbn [String.length length] in *.
  - lia.
  - rewrite length_lit in Hv. cbn [String.length length] in *. lia.
Qed.

Lemma length_print_object {V} (pv : V -> string -> string) indent outer ms rest :
  (∀ v r, String.length r ≤ String.length (pv v r)) →
  String.length rest + 5 * length ms ≤ String.length (print_object pv indent outer ms rest).
Proof.
  intros Hpv. unfold print_object. destruct ms as [|m ms'].
  - rewrite length_lit. cbn. lia.
  - rewrite length_lit. cbn [String.length].
    pose proof (length_print_members pv indent (m :: ms') (lit outer (lit "}" rest)) Hpv) as H.
    rewrite !length_lit in H. cbn [String.length] in H. lia.
Qed.

Lemma length_print_scalar v r : String.length r ≤ String.length (print_scalar v r).
Proof.
  destruct v as [s|[]]; cbn [print_scalar].
  - pose proof (length_quote s r). lia.
  - unfold print_bool. rewrite length_lit. lia.
  - unfold print_bool. rewrite length_lit. lia.
Qed.

Lemma length_print_config c r : String.length r ≤ String.length (print_config c r).
Proof.
  unfold print_config.
  pose proof (length_print_object print_scalar "    " "  " (members_of c) r
                length_print_scalar).
  lia.
Qed.

(** *** Configurations and documents *)

Lemma config_of_members_of c : config_of_members (members_of c) = Some c.
Proof. destruct c as [u h sd m [i|]]; reflexivity. Qed.

Lemma length_members_of c : length (members_of c) ≤ 5.
Proof. destruct c as [u h sd m [i|]]; cbn; lia. Qed.

Lemma read_config_print fuel c rest :
  5 ≤ fuel → read_config fuel (print_config c rest) = Some (c, rest).
Proof.
  intros Hf. unfold read_config, print_config.
  pose proof (length_members_of c) as Hl.
  replace fuel with (length (members_of c) + (fuel - length (members_of c))) by lia.
  rewrite (read_object_print print_scalar read_scalar read_scalar_print skip_ws_scalar
             "    " "  " (members_of c) rest _ blank_spaces4 blank_spaces2).
  cbn [mbind option_bind]. rewrite config_of_members_of. reflexivity.
Qed.

Lemma skip_ws_print_config c rest : skip_ws (print_config c rest) = print_config c rest.
Proof. unfold print_config, print_object. destruct (members_of c); reflexivity. Qed.

Lemma list_to_map_reverse_to_list (doc : gmap string AgentConfig) :
  list_to_map (reverse (map_to_list doc)) = doc.
Proof.
  rewrite <- (list_to_map_to_list doc) at 2.
  apply list_to_map_proper.
  - rewrite fmap_reverse, reverse_Permutation. apply NoDup_fst_map_to_list.
  - apply reverse_Permutation.
Qed.

(** [JSON.parse] gives back the document [JSON.stringify] printed. *)
Lemma parse_text_stringify_text doc : parse_text (stringify_text doc) = Ok doc.
Proof.
  unfold stringify_text.
  rewrite <- (list_to_map_reverse_to_list doc) at 2.
  generalize (map_to_list doc). intros l. unfold parse_text.
  destruct l as [|e l]; [reflexivity|].
  set (text := print_doc (e :: l)).
  assert (Hlen : 5 * length (e :: l) ≤ String.length text).
  { pose proof (length_print_object print_config "  " "" (e :: l) "" length_print_config).
    unfold text, print_doc. lia. }
  cbn [length] in Hlen.
  assert (Hfive : 5 ≤ String.length text) by lia.
  assert (Hsolid : skip_ws text = text) by reflexivity.
  rewrite Hsolid. unfold text at 3. unfold print_doc.
  replace (String.length text)
    with (length (e :: l) + (String.length text - length (e :: l))) at 2
    by (cbn [length]; lia).
  rewrite (read_object_print print_config (read_config (String.length text))
             (fun c r => read_config_print (String.length text) c r Hfive)
             skip_ws_print_config
             "  " "" (e :: l) "" _ blank_spaces2 blank_empty).
  reflexivity.
Qed.

Lemma stringify_text_not_blank doc : is_blank (stringify_text doc) = false.
Proof.
  unfold stringify_text, print_doc, print_object.
  destruct (map_to_list doc); reflexivity.
Qed.

End JsonFacts.

(** The codec of the platform, on JSON text. *)
#[export] Instance json_codec : JsonCodec := {|
  stringify := Json.stringify_text;
  parse := Json.parse_text;
  parse_stringify := JsonFacts.parse_text_stringify_text;
  stringify_not_blank := JsonFacts.stringify_text_not_blank
|}.

(** ** Persistence *)

Section RoundTrip.

Variable env : Env.
Context {codec : JsonCodec}.

(** What [saveAgentsToFile] leaves in the file when the write succeeds. *)
Lemma saveAgentsToFile_file srv ags :
  file_write_fails env (clock srv) = None →
  saveAgentsToFile env ags srv
  = (Ok tt, {| agents := agents srv; file := Some (stringify (config <$> ags));
               clock := S (clock srv); log := log srv |}).
Proof.
  intros Hw. unfold saveAgentsToFile, try_catch, write_file. rewrite Hw. reflexivity.
Qed.

(** What [loadAgentsFromFile] returns from a file that [JSON.parse]
    accepts. *)
Lemma loadAgentsFromFile_parsed boot text doc :
  file boot = Some text →
  is_blank text = false →
  parse text = Ok doc →
  file_exists_fails env (clock boot) = None →
  file_text_fails env (S (clock boot)) = None →
  fst (loadAgentsFromFile env boot) = Ok (new_agent <$> doc).
Proof.
  intros Hf Hb Hp He Ht.
  unfold loadAgentsFromFile, loadAgentsFromFile_at, read_binding, try_catch, bind,
    file_exists, file_text, ret.
  cbn.
  rewrite He, Hf. cbn. rewrite Ht, Hb, Hp. reflexivity.
Qed.

(** C4.  The registry is saved and the write succeeds; a process that
    starts on the file written, and reads it without an I/O error, loads
    exactly the agents that were saved: as many, under the same
    identifiers, each with the configuration it had, in status [idle] and
    with null browser and page handles. *)
Theorem save_then_load_round_trip srv boot :
  file_write_fails env (clock srv) = None →
  file boot = file (snd (saveAgentsToFile env (agents srv) srv)) →
  file_exists_fails env (clock boot) = None →
  file_text_fails env (S (clock boot)) = None →
  ∃ loaded,
    fst (loadAgentsFromFile env boot) = Ok loaded
    ∧ size loaded = size (agents srv)
    ∧ dom loaded = dom (agents srv)
    ∧ ∀ id a, agents srv !! id = Some a →
              loaded !! id = Some {| config := config a; browser := None; page := None;
                                     status := idle |}.
Proof.
  intros Hw Hfile He Ht.
  rewrite (saveAgentsToFile_file srv (agents srv) Hw) in Hfile. cbn in Hfile.
  exists (new_agent <$> (config <$> agents srv)). split.
  - apply (loadAgentsFromFile_parsed boot _ _ Hfile);
      auto using stringify_not_blank, parse_stringify.
  - split; [by rewrite !map_size_fmap|].
    split; [by rewrite !dom_fmap_L|].
    intros id a Ha. rewrite !lookup_fmap, Ha. reflexivity.
Qed.

End RoundTrip.

Lemma save_then_load_round_trip_witness :
  ∃ loaded,
    fst (loadAgentsFromFile meeting (rebooted json_codec)) = Ok loaded
    ∧ size loaded = size (agents two_agents)
    ∧ dom loaded = dom (agents two_agents)
    ∧ ∀ id a, agents two_agents !! id = Some a →
              loaded !! id = Some {| config := config a; browser := None; page := None;
                                     status := idle |}.
Proof.
  apply (save_then_load_round_trip meeting two_agents (rebooted json_codec)); reflexivity.
Defined.


(** ** The routines on a concrete meeting *)

Example start_in_meeting :
  fst (start meeting (mkSt (new_agent room) 0 [])) = Ok true
  ∧ this (snd (start meeting (mkSt (new_agent room) 0 []))) = in_meeting.
Proof. split; reflexivity. Qed.

Example start_unreachable_status :
  status (this (snd (start unreachable (mkSt (new_agent room) 0 [])))) = stopped.
Proof. reflexivity. Qed.

Example listParticipants_in_meeting :
  fst (listParticipants meeting (mkSt in_meeting 0 []))
  = Ok (Some [ {| name := Some "Alice"; videoMuted := true; audioMuted := true |};
               {| name := Some "Bob"; videoMuted := false; audioMuted := false |} ]).
Proof. reflexivity. Qed.

Example meeting_cooperates pg : dialog_cooperates meeting pg.
Proof.
  repeat split.
  - intros sel w t Hw. exists 10. cbn. rewrite Hw. reflexivity.
  - intros sel w t Hw. eexists. reflexivity.
Qed.

Example clickShareLinkButton_in_meeting :
  fst (clickShareLinkButton meeting (mkSt in_meeting 0 []))
  = Ok (Some "https://jitsi.3git.eu/DailyStandup42").
Proof. reflexivity. Qed.

Example coldStart_on_meeting :
  fst (coldStart meeting (mkSt (new_agent room) 0 [])) = Ok true.
Proof. reflexivity. Qed.

Example coldStart_unreachable :
  fst (coldStart unreachable (mkSt (new_agent room) 0 [])) = Ok false.
Proof. reflexivity. Qed.

Example getScreenshot_without_page :
  fst (getScreenshot meeting (mkSt (new_agent room) 0 [])) = Ok js_undefined.
Proof. reflexivity. Qed.

(** A request for a name the [agents] object inherits passes the guard:
    the start endpoint answers 500, and the status endpoint's handler
    throws. *)
Example start_request_for_constructor :
  fst (post_agent_start meeting "constructor" one_agent)
  = Ok (mkResponse 500 (ErrorBody "Failed to start agent")).
Proof. vm_compute. reflexivity. Qed.

Example start_request_for_unknown_id :
  fst (post_agent_start meeting "a2" one_agent)
  = Ok (mkResponse 404 (ErrorBody "Agent not found")).
Proof. vm_compute. reflexivity. Qed.

Example status_request_for_constructor :
  fst (get_agent_status "constructor" one_agent)
  = Throw (Err "TypeError").
Proof. vm_compute. reflexivity. Qed.

(** The start-up cold start, unlike the [cold_start] command of [exec],
    removes its temporary agent once the cold start has succeeded. *)
Example startup_removes_its_temporary_agent :
  agents (snd (startup meeting true {| agents := ∅; file := None; clock := 0; log := [] |}))
  = ∅.
Proof. vm_compute. reflexivity. Qed.

Example exec_cold_start_keeps_its_temporary_agent :
  dom (agents (snd (post_agent_exec meeting "a1" "cold_start" one_agent)))
  = {[ "a1"; "agent-0" ]}.
Proof. vm_compute. reflexivity. Qed.

(** ** Further properties of the lifecycle and the registry *)

(** When the browser closes, [stop] can be called twice in a row: both
    calls return, and the agent is [stopped] with no browser after each;
    the second call finds no browser to close. *)
Theorem stop_twice_when_browser_closes env s :
  (∀ b t, browser_close env b t = Ok tt) →
  ∃ s1 s2,
    stop env s = (Ok tt, s1)
    ∧ status (this s1) = stopped ∧ browser (this s1) = None
    ∧ stop env s1 = (Ok tt, s2)
    ∧ status (this s2) = stopped ∧ browser (this s2) = None.
Proof.
  intros Hb.
  destruct (stop_when_browser_closes env s Hb) as (s1 & H1 & Hs1 & Hb1 & _).
  destruct (stop_when_browser_closes env s1 Hb) as (s2 & H2 & Hs2 & Hb2 & _).
  exists s1, s2. auto 10.
Qed.

Lemma stop_twice_witness :
  ∃ s1 s2,
    stop meeting (mkSt in_meeting 0 []) = (Ok tt, s1)
    ∧ status (this s1) = stopped ∧ browser (this s1) = None
    ∧ stop meeting s1 = (Ok tt, s2)
    ∧ status (this s2) = stopped ∧ browser (this s2) = None.
Proof.
  apply (stop_twice_when_browser_closes meeting (mkSt in_meeting 0 [])).
  intros; reflexivity.
Defined.

(** The [start] and [stop] endpoints, and every command of [exec] other
    than [cold_start], leave the set of registered identifiers as it is. *)
Theorem registry_keys_kept env id code srv :
  code ≠ "cold_start" →
  dom (agents (snd (post_agent_start env id srv))) = dom (agents srv)
  ∧ dom (agents (snd (post_agent_stop env id srv))) = dom (agents srv)
  ∧ dom (agents (snd (post_agent_exec env id code srv))) = dom (agents srv).
Proof.
  intros Hc. split; [apply post_agent_start_dom|].
  split; [apply post_agent_stop_dom | apply post_agent_exec_dom, Hc].
Qed.

Lemma registry_keys_kept_witness :
  dom (agents (snd (post_agent_start meeting "a1" one_agent))) = dom (agents one_agent)
  ∧ dom (agents (snd (post_agent_stop meeting "a1" one_agent))) = dom (agents one_agent)
  ∧ dom (agents (snd (post_agent_exec meeting "a1" "share_link" one_agent)))
    = dom (agents one_agent).
Proof.
  apply (registry_keys_kept meeting "a1" "share_link" one_agent). discriminate.
Defined.

(** [getMeetingDuration] never throws and leaves the agent as it is; with
    no page it returns null. *)
Theorem getMeetingDuration_total env s :
  ∃ r s', getMeetingDuration env s = (Ok r, s')
          ∧ this s' = this s
          ∧ (page (this s) = None → r = None).
Proof.
  pose proof (keeps_getMeetingDuration env s) as Hk.
  unfold getMeetingDuration in *. unfold bind at 1 in Hk. unfold bind at 1.
  unfold get_this in *. cbn in *.
  destruct (page (this s)) as [pg|]; [|cbn; eauto].
  unfold try_catch, bind, await, ret in *. cbn in *.
  destruct (page_query env pg timer_span (now s)) as [[el|]|e]; cbn in *;
    [destruct (textContent env pg el (S (now s))) as [r|e]; cbn in *|..];
    (eexists _, _; split; [reflexivity|]; split; [assumption | discriminate]).
Qed.

(** [saveAgentsToFile] never throws: a failed write is logged, and the
    registry in memory is as it was. *)
Theorem saveAgentsToFile_never_throws env (codec : JsonCodec) ags srv :
  ∃ srv', saveAgentsToFile env ags srv = (Ok tt, srv') ∧ agents srv' = agents srv.
Proof.
  unfold saveAgentsToFile, try_catch, write_file.
  destruct (file_write_fails env (clock srv)); cbn; eauto.
Qed.

(** Once [utils.ts] has been evaluated, [loadAgentsFromFile] never
    throws, and with no file, or a file the parser refuses, it returns an
    empty registry.  Called before that, as the start of [api.ts] calls it
    when [cli.ts] is the entry module (the two modules import each other),
    it rejects: reading [AGENTS_DATA_FILE] throws a [ReferenceError] in
    the [try] block and again in the [catch] clause, which builds its
    message from the same constant; nothing is logged and nothing is
    read. *)
Theorem loadAgentsFromFile_rejects_only_uninitialised env (codec : JsonCodec) srv :
  (∃ loaded srv', loadAgentsFromFile env srv = (Ok loaded, srv')
                  ∧ (file srv = None → loaded = ∅)
                  ∧ (∀ text e, file srv = Some text → parse text = Throw e → loaded = ∅))
  ∧ (∀ path, ∃ loaded srv', loadAgentsFromFile_at env (Some path) srv = (Ok loaded, srv'))
  ∧ loadAgentsFromFile_at env None srv
    = (Throw (Err "ReferenceError: Cannot access 'AGENTS_DATA_FILE' before initialization."),
       srv).
Proof.
  split; [|split; [|reflexivity]].
  - unfold loadAgentsFromFile, loadAgentsFromFile_at, read_binding, try_catch, bind,
      file_exists, file_text, logger, ret, throw.
    cbn.
    destruct (file_exists_fails env (clock srv)); cbn.
    { eexists _, _. split; [reflexivity|]. split; reflexivity. }
    destruct (file srv) as [text|] eqn:Hf; cbn.
    2: { eexists _, _. split; [reflexivity|]. split; [reflexivity | discriminate]. }
    destruct (file_text_fails env (S (clock srv))); cbn.
    { eexists _, _. split; [reflexivity|]. split; reflexivity. }
    destruct (is_blank text); cbn.
    { eexists _, _. split; [reflexivity|]. split; reflexivity. }
    destruct (parse text) as [doc|e] eqn:Hp; cbn.
    + eexists _, _. split; [reflexivity|]. split; [discriminate|].
      intros text' e' [= <-] He. congruence.
    + eexists _, _. split; [reflexivity|]. split; reflexivity.
  - intros path.
    assert (Hn : never_throws (loadAgentsFromFile_at env (Some path))).
    { apply never_throws_try_catch. intros e s. cbn. eauto. }
    destruct (Hn srv) as [loaded Hl].
    destruct (loadAgentsFromFile_at env (Some path) srv) as [r srv'].
    cbn in Hl. subst r. eauto.
Qed.

(** * Further coverage: the lifecycle in more detail *)

(** A page that cannot be closed is kept: [stop] logs the error, closes
    the browser and reports [stopped], and the page handle stays set. *)
Theorem stop_keeps_page_it_cannot_close env s pg e :
  page (this s) = Some pg →
  page_close env pg (now s) = Throw e →
  (∀ b t, browser_close env b t = Ok tt) →
  ∃ s', stop env s = (Ok tt, s')
        ∧ status (this s') = stopped
        ∧ browser (this s') = None
        ∧ page (this s') = Some pg.
Proof.
  intros Hpg Hp Hb. destruct s as [[c b p st] t o]. cbn in Hpg, Hp. subst p.
  unfold_agent. rewrite Hp. cbn.
  destruct b as [br|]; cbn; [rewrite Hb; cbn|]; eauto 10.
Qed.

Lemma stop_keeps_page_witness :
  ∃ s', stop crashed_page (mkSt in_meeting 0 []) = (Ok tt, s')
        ∧ status (this s') = stopped
        ∧ browser (this s') = None
        ∧ page (this s') = Some 2.
Proof.
  apply (stop_keeps_page_it_cannot_close crashed_page (mkSt in_meeting 0 []) 2
           (Err "Protocol error: Target closed")).
  - reflexivity.
  - reflexivity.
  - intros b t. reflexivity.
Defined.

(** When the launch, the grant of the clipboard permissions, the opening
    of the page and the navigation succeed (and the title evaluation, when
    the configuration asks for scraping), [start] returns [true] from any
    state: the agent is [running] and holds the browser launched with the
    options of its configuration and the page opened in it.  Nothing else
    is awaited: handles the agent held before are dropped, not closed. *)
Theorem start_succeeds env s b pg :
  let cfg := config (this s) in
  launch env (startOptions cfg (existsSync env chromeDir (now s))) (now s) = Ok b →
  overridePermissions env b (startUrl cfg) ["clipboard-read"; "clipboard-write"]
    (1 + now s) = Ok tt →
  newPage env b (2 + now s) = Ok pg →
  goto env pg (startUrl cfg) (3 + now s) = Ok tt →
  (scrapeData cfg = true → ∃ title, document_title env pg (4 + now s) = Ok title) →
  ∃ s', start env s = (Ok true, s')
        ∧ this s' = {| config := cfg; browser := Some b; page := Some pg;
                       status := running |}
        ∧ now s' = now s + (if scrapeData cfg then 5 else 4).
Proof.
  intros cfg Hl Ho Hn Hg Hscrape. subst cfg.
  destruct s as [[c b0 p st] t o]. cbn in *.
  unfold startOptions in Hl. unfold_agent.
  destruct (existsSync env chromeDir t); cbn in *;
    rewrite Hl; cbn; rewrite Ho; cbn; rewrite Hn; cbn; rewrite Hg; cbn;
    (destruct (scrapeData c); cbn;
     [destruct (Hscrape eq_refl) as [title Ht]; rewrite Ht; cbn|];
     eexists; repeat split; cbn; lia).
Qed.

Lemma start_succeeds_witness :
  ∃ s', start meeting (mkSt in_meeting 0 []) = (Ok true, s')
        ∧ this s' = {| config := room; browser := Some 1; page := Some 2;
                       status := running |}
        ∧ now s' = 0 + (if scrapeData room then 5 else 4).
Proof.
  apply (start_succeeds meeting (mkSt in_meeting 0 []) 1 2).
  - reflexivity.
  - reflexivity.
  - reflexivity.
  - reflexivity.
  - intros H. discriminate H.
Defined.

(** Whatever makes [start] throw, the launch, the permissions, the page,
    the navigation or the title evaluation, the agent is left [stopped]
    with null handles when closing pages and browsers succeeds. *)
Theorem start_failure_releases_session env s e s' :
  (∀ pg t, page_close env pg t = Ok tt) →
  (∀ b t, browser_close env b t = Ok tt) →
  start env s = (Throw e, s') →
  this s' = {| config := config (this s); browser := None; page := None;
               status := stopped |}.
Proof.
  intros Hp Hb Hrun. pose proof (start_when_closes_succeed env s Hp Hb) as H.
  rewrite Hrun in H. exact H.
Qed.

Lemma start_failure_releases_session_witness :
  this (snd (start unreachable (mkSt in_meeting 0 [])))
  = {| config := room; browser := None; page := None; status := stopped |}.
Proof.
  apply (start_failure_releases_session unreachable (mkSt in_meeting 0 [])
           (Err "net::ERR_CONNECTION_REFUSED")).
  - intros pg t. reflexivity.
  - intros b t. reflexivity.
  - reflexivity.
Defined.

(** [_openParticipantsPane] never throws and leaves the agent as it is.
    With a page it reports the pane open exactly when the key press and the
    wait for the container succeed and both the container and its content
    region are then found. *)
Theorem openParticipantsPane_true_iff env s pg :
  page (this s) = Some pg →
  ∃ opened s',
    _openParticipantsPane env s = (Ok opened, s')
    ∧ this s' = this s
    ∧ (opened = true ↔
       keyboard_press env pg "p" (now s) = Ok tt
       ∧ (∃ o, waitForSelector env pg participants_pane (mkWait false false 5000)
                 (1 + now s) = Ok o)
       ∧ (∃ d, page_query env pg participants_pane (2 + now s) = Ok (Some d))
       ∧ (∃ c, page_query env pg participants_pane_content (3 + now s) = Ok (Some c))).
Proof.
  intros Hpg. pose proof (keeps_openParticipantsPane env s) as Hk.
  unfold _openParticipantsPane in *. unfold bind at 1 in Hk. unfold bind at 1.
  unfold get_this in *. cbn in *. rewrite Hpg in *.
  unfold try_catch, bind, await, ret in *. cbn in *.
  destruct (keyboard_press env pg "p" (now s)) as [[]|e1]; cbn in *.
  2: { eexists _, _. split; [reflexivity|]. split; [exact Hk|].
       split; [discriminate | intros (H & _); discriminate H]. }
  destruct (waitForSelector env pg participants_pane _ (S (now s))) as [o|e2]; cbn in *.
  2: { eexists _, _. split; [reflexivity|]. split; [exact Hk|].
       split; [discriminate | intros (_ & [o' H] & _); discriminate H]. }
  destruct (page_query env pg participants_pane (S (S (now s)))) as [d|e3]; cbn in *.
  2: { eexists _, _. split; [reflexivity|]. split; [exact Hk|].
       split; [discriminate | intros (_ & _ & [d' H] & _); discriminate H]. }
  destruct (page_query env pg participants_pane_content (S (S (S (now s)))))
    as [c|e4]; cbn in *.
  2: { eexists _, _. split; [reflexivity|]. split; [exact Hk|].
       split; [discriminate | intros (_ & _ & _ & [c' H]); discriminate H]. }
  destruct d as [d|], c as [c|]; cbn in *;
    (eexists _, _; split; [reflexivity|split; [exact Hk|split;
     [ intros H; try discriminate H; eauto 10
     | intros (_ & _ & [d' Hd] & [c' Hc]); try discriminate Hd; try discriminate Hc;
       reflexivity ]]]).
Qed.

Lemma openParticipantsPane_true_iff_witness :
  ∃ opened s',
    _openParticipantsPane meeting (mkSt in_meeting 0 []) = (Ok opened, s')
    ∧ this s' = in_meeting
    ∧ (opened = true ↔
       keyboard_press meeting 2 "p" 0 = Ok tt
       ∧ (∃ o, waitForSelector meeting 2 participants_pane (mkWait false false 5000) 1
               = Ok o)
       ∧ (∃ d, page_query meeting 2 participants_pane 2 = Ok (Some d))
       ∧ (∃ c, page_query meeting 2 participants_pane_content 3 = Ok (Some c))).
Proof.
  apply (openParticipantsPane_true_iff meeting (mkSt in_meeting 0 []) 2). reflexivity.
Defined.

(** ** The invite-link pattern finds the leftmost, longest link *)

(** [inviteLink.match(linkRegex)[0]], as [clickShareLinkButton] takes it:
    the result is an invite link that occurs in the text, at the leftmost
    position where one occurs, and extended as far as the characters of
    the room name go; the result is null exactly when no part of the text
    is an invite link. *)
Theorem regex_match_leftmost_longest s :
  match regex_match s with
  | Some m =>
      invite_link m
      ∧ ∃ pre post, s = pre +:+ m +:+ post
          ∧ no_alnum_ahead post
          ∧ (∀ pre' m' post', s = pre' +:+ m' +:+ post' → invite_link m' →
               String.length pre ≤ String.length pre')
  | None => ∀ pre m post, s = pre +:+ m +:+ post → ¬ invite_link m
  end.
Proof.
  induction s as [|a s IH]; cbn [regex_match].
  - destruct (match_here "") as [m|] eqn:Hm; [discriminate Hm|].
    intros [|b pre] m post Hs; [|discriminate Hs].
    exact (match_here_none _ m post Hm Hs).
  - destruct (match_here (String a s)) as [m|] eqn:Hm.
    + split; [eapply match_here_invite_link, Hm|].
      destruct (match_here_occurs _ _ Hm) as (post & Hs & Hpost).
      exists "", post. split; [exact Hs|]. split; [exact Hpost|].
      intros pre' m' post' _ _. cbn. lia.
    + destruct (regex_match s) as [m|].
      * destruct IH as (Hlink & pre & post & Hs & Hpost & Hleft).
        split; [exact Hlink|]. exists (String a pre), post.
        split; [rewrite append_cons; f_equal; exact Hs|]. split; [exact Hpost|].
        intros [|b pre'] m' post' Hs' Hm'.
        -- exfalso. exact (match_here_none _ m' post' Hm Hs' Hm').
        -- rewrite append_cons in Hs'. injection Hs' as _ Hs'.
           specialize (Hleft pre' m' post' Hs' Hm'). cbn. lia.
      * intros [|b pre] m post Hs.
        -- exact (match_here_none _ m post Hm Hs).
        -- rewrite append_cons in Hs. injection Hs as _ Hs. eapply IH, Hs.
Qed.

(** ** The write endpoints in more detail *)

Ltac unfold_handler :=
  unfold post_agent_create, post_agent_stop, delete_agent, not_found, missing,
    saveAgentsToFile, write_file, fresh_uuid, try_catch, bind, get_agents,
    set_agents, logger, ret in *; cbn in *.

(** The answer of [stop] on a freshly constructed agent: nothing is
    awaited. *)
Lemma stop_new_agent env cfg t :
  stop env {| this := new_agent cfg; now := t; observed := [] |}
  = (Ok tt, {| this := {| config := cfg; browser := None; page := None;
                          status := stopped |};
               now := t; observed := [] |}).
Proof. reflexivity. Qed.


(** An agent created through the API is there again after a restart: when
    the write of the snapshot succeeds, a process that starts on that file
    (without the cold-start flag, and reading the file without an I/O
    error) has the new identifier registered with an idle agent of the
    requested configuration, next to the agents that were registered
    before. *)
Theorem created_agent_survives_restart env (codec : JsonCodec) cfg srv boot :
  file_write_fails env (S (clock srv)) = None →
  file boot = file (snd (post_agent_create env cfg srv)) →
  file_exists_fails env (clock boot) = None →
  file_text_fails env (S (clock boot)) = None →
  ∃ booted,
    startup env false boot = (Ok tt, booted)
    ∧ agents booted !! randomUUID env (clock srv) = Some (new_agent cfg)
    ∧ dom (agents booted) = {[randomUUID env (clock srv)]} ∪ dom (agents srv)
    ∧ ∀ id a, agents srv !! id = Some a → id ≠ randomUUID env (clock srv) →
              agents booted !! id = Some (new_agent (config a)).
Proof.
  intros Hw Hfile He Ht.
  set (uuid := randomUUID env (clock srv)) in *.
  assert (Hsaved : file boot
                   = Some (stringify (config <$> <[uuid := new_agent cfg]> (agents srv)))).
  { rewrite Hfile. unfold_handler. fold uuid. rewrite Hw. reflexivity. }
  pose proof (loadAgentsFromFile_parsed env boot _ _ Hsaved
                (stringify_not_blank _) (parse_stringify _) He Ht) as Hload.
  unfold startup, bind. destruct (loadAgentsFromFile env boot) as [r boot1].
  cbn in Hload. subst r. cbn. eexists. split; [reflexivity|]. cbn.
  split; [|split].
  - rewrite !lookup_fmap, lookup_insert_eq. reflexivity.
  - rewrite !dom_fmap_L, dom_insert_L. reflexivity.
  - intros id a Ha Hid. rewrite !lookup_fmap, lookup_insert_ne, Ha by congruence.
    reflexivity.
Qed.

Lemma created_agent_survives_restart_witness :
  ∃ booted,
    startup meeting false
      {| agents := ∅; file := file (snd (post_agent_create meeting room two_agents));
         clock := 0; log := [] |}
    = (Ok tt, booted)
    ∧ agents booted !! randomUUID meeting (clock two_agents) = Some (new_agent room)
    ∧ dom (agents booted)
      = {[randomUUID meeting (clock two_agents)]} ∪ dom (agents two_agents)
    ∧ ∀ id a, agents two_agents !! id = Some a →
              id ≠ randomUUID meeting (clock two_agents) →
              agents booted !! id = Some (new_agent (config a)).
Proof.
  apply (created_agent_survives_restart meeting json_codec room two_agents
           {| agents := ∅; file := file (snd (post_agent_create meeting room two_agents));
              clock := 0; log := [] |});
    reflexivity.
Defined.

(** Creating an agent and deleting it again leaves the registry as it was,
    when the identifier drawn was not in use: the new agent holds no
    browser, so the [stop] that precedes the removal awaits nothing and the
    deletion answers 200 in every environment. *)
Theorem create_then_delete_restores_registry env (codec : JsonCodec) cfg srv :
  agents srv !! randomUUID env (clock srv) = None →
  ∃ srv2,
    delete_agent env (randomUUID env (clock srv)) (snd (post_agent_create env cfg srv))
    = (Ok (mkResponse 200 (StatusBody "Agent deleted")), srv2)
    ∧ agents srv2 = agents srv.
Proof.
  intros Hfresh. set (uuid := randomUUID env (clock srv)) in *.
  unfold delete_agent, post_agent_create.
  unfold_handler. fold uuid.
  assert (Hcreated : ∀ f c l,
            on_agent uuid (stop env)
              {| agents := <[uuid := new_agent cfg]> (agents srv); file := f;
                 clock := c; log := l |}
            = (Ok tt, {| agents := <[uuid := {| config := cfg; browser := None;
                                               page := None; status := stopped |}]>
                                     (agents srv);
                         file := f; clock := c; log := l |})).
  { intros f c l. unfold on_agent. cbn. rewrite lookup_insert_eq, stop_new_agent. cbn.
    by rewrite insert_insert_eq. }
  destruct (file_write_fails env (S (clock srv))) as [e|]; cbn;
    rewrite lookup_insert_eq, Hcreated; cbn;
    (destruct (file_write_fails env _) as [e'|]; cbn;
     (eexists; split; [reflexivity|]; cbn;
      rewrite delete_insert_eq; apply delete_id; exact Hfresh)).
Qed.

Lemma create_then_delete_witness :
  ∃ srv2,
    delete_agent meeting (randomUUID meeting (clock one_agent))
      (snd (post_agent_create meeting room one_agent))
    = (Ok (mkResponse 200 (StatusBody "Agent deleted")), srv2)
    ∧ agents srv2 = agents one_agent.
Proof.
  apply (create_then_delete_restores_registry meeting json_codec room one_agent).
  vm_compute. reflexivity.
Defined.

(** What a method that leaves the agent as it is leaves of the server. *)
Lemma on_agent_keeps {A} id (method : M A) srv a :
  agents srv !! id = Some a →
  keeps_this method →
  agents (snd (on_agent id method srv)) = agents srv
  ∧ file (snd (on_agent id method srv)) = file srv
  ∧ log (snd (on_agent id method srv)) = log srv.
Proof.
  intros Ha Hk. rewrite (on_agent_agents id method srv a Ha). cbn.
  rewrite Hk. cbn. split; [|done]. apply insert_id, Ha.
Qed.

(** [DELETE /agent/:id] on a registered agent whose browser closes: the
    agent is stopped, removed from the registry, and the answer is 200;
    the other agents stay as they are, and when the write succeeds the
    snapshot file holds the configurations of the agents that remain. *)
Theorem delete_removes_agent env (codec : JsonCodec) id a srv :
  agents srv !! id = Some a →
  (∀ b t, browser_close env b t = Ok tt) →
  ∃ srv',
    delete_agent env id srv = (Ok (mkResponse 200 (StatusBody "Agent deleted")), srv')
    ∧ agents srv' = delete id (agents srv)
    ∧ (file_write_fails env (clock srv' - 1) = None →
       file srv' = Some (stringify (config <$> delete id (agents srv)))).
Proof.
  intros Ha Hb.
  destruct (stop_when_browser_closes env {| this := a; now := clock srv; observed := [] |}
              Hb) as (s' & Hstop & _).
  unfold delete_agent. unfold bind at 1. unfold get_agents. cbn. rewrite (missing_registered _ _ _ Ha).
  unfold try_catch. unfold bind at 1.
  rewrite (on_agent_agents id (stop env) srv a Ha), Hstop. cbn.
  unfold_handler.
  destruct (file_write_fails env (now s')) as [e|] eqn:Hw; cbn;
    (eexists; split; [reflexivity|]; cbn; split; [apply delete_insert_eq|]);
    rewrite Nat.sub_0_r, Hw; intros Hnone; [discriminate Hnone|].
  by rewrite delete_insert_eq.
Qed.

Lemma delete_removes_agent_witness :
  ∃ srv',
    delete_agent meeting "a1" two_agents
    = (Ok (mkResponse 200 (StatusBody "Agent deleted")), srv')
    ∧ agents srv' = delete "a1" (agents two_agents)
    ∧ (file_write_fails meeting (clock srv' - 1) = None →
       file srv' = Some (stringify (config <$> delete "a1" (agents two_agents)))).
Proof.
  apply (delete_removes_agent meeting json_codec "a1" in_meeting two_agents).
  - reflexivity.
  - intros b t. reflexivity.
Defined.

(** An agent whose browser cannot be closed cannot be deleted: [stop]
    rejects, the handler answers 500, and the agent stays registered, with
    its browser handle and the status it had; the snapshot file is not
    rewritten. *)
Theorem delete_keeps_agent_when_stop_rejects env (codec : JsonCodec) id a b e srv :
  agents srv !! id = Some a →
  browser a = Some b →
  (∀ t, browser_close env b t = Throw e) →
  ∃ srv' a',
    delete_agent env id srv
    = (Ok (mkResponse 500 (ErrorBody "Failed to delete agent")), srv')
    ∧ agents srv' = <[id := a']> (agents srv)
    ∧ browser a' = Some b
    ∧ status a' = status a
    ∧ file srv' = file srv.
Proof.
  intros Ha Hbr Hb.
  unfold delete_agent. unfold bind at 1. unfold get_agents. cbn. rewrite (missing_registered _ _ _ Ha).
  unfold try_catch. unfold bind at 1.
  rewrite (on_agent_agents id (stop env) srv a Ha).
  destruct a as [c b0 p st]. cbn in Hbr. subst b0. unfold_agent.
  destruct p as [pg|]; cbn.
  - destruct (page_close env pg (clock srv)) as [[]|e1]; cbn; rewrite Hb; cbn;
      unfold_handler; eexists _, _; (split; [reflexivity|]); cbn; auto.
  - rewrite Hb; cbn. unfold_handler. eexists _, _. split; [reflexivity|]. cbn. auto.
Qed.

Lemma delete_keeps_agent_witness :
  ∃ srv' a',
    delete_agent stuck_browser "a1" one_agent
    = (Ok (mkResponse 500 (ErrorBody "Failed to delete agent")), srv')
    ∧ agents srv' = <[ "a1" := a' ]> (agents one_agent)
    ∧ browser a' = Some 1
    ∧ status a' = status in_meeting
    ∧ file srv' = file one_agent.
Proof.
  apply (delete_keeps_agent_when_stop_rejects stuck_browser json_codec "a1" in_meeting 1
           (Err "Protocol error: Connection closed")).
  - reflexivity.
  - reflexivity.
  - intros t. reflexivity.
Defined.

(** ** Start-up with the cold-start flag *)

Lemma loadAgentsFromFile_returns env (codec : JsonCodec) :
  never_throws (loadAgentsFromFile env).
Proof.
  apply never_throws_try_catch. intros e srv. cbn. eauto.
Qed.

(** With [--coldstart] the process registers a temporary agent under a
    fresh identifier next to the agents it loaded, and removes it again
    only when the cold start succeeded: after a failed cold start the
    temporary agent stays in the registry, idle, until the process ends
    (and is written to the snapshot by the next create or delete). *)
Theorem startup_coldstart_registry env (codec : JsonCodec) boot :
  ∃ loaded boot1 booted,
    loadAgentsFromFile env boot = (Ok loaded, boot1)
    ∧ startup env true boot = (Ok tt, booted)
    ∧ agents booted
      = match fst (coldStart env {| this := new_agent startupColdStartConfig;
                                    now := S (clock boot1); observed := [] |}) with
        | Ok true => delete (randomUUID env (clock boot1)) loaded
        | _ => <[randomUUID env (clock boot1) := new_agent startupColdStartConfig]> loaded
        end.
Proof.
  destruct (loadAgentsFromFile_returns env codec boot) as [loaded Hl].
  destruct (loadAgentsFromFile env boot) as [r boot1] eqn:Hload. cbn in Hl. subst r.
  exists loaded, boot1.
  unfold startup, bind. rewrite Hload. cbn.
  unfold fresh_uuid, get_agents, set_agents, tick, ret, on_agent. cbn.
  rewrite lookup_insert_eq.
  pose proof (keeps_coldStart env {| this := new_agent startupColdStartConfig;
                                    now := S (clock boot1); observed := [] |}) as Hk.
  destruct (coldStart_never_throws env {| this := new_agent startupColdStartConfig;
                                         now := S (clock boot1); observed := [] |})
    as [res Hres].
  destruct (coldStart env _) as [r s']. cbn in Hk, Hres. subst r. cbn.
  rewrite Hk. destruct res; cbn; eexists; (split; [reflexivity|]); (split; [reflexivity|]);
    cbn; rewrite insert_insert_eq; [|reflexivity].
  apply delete_insert_eq.
Qed.

(** ** What the endpoints answer *)

Ltac answer :=
  eexists _, _; split; [reflexivity|]; cbn; split;
  [split; [discriminate | tauto] | auto].

Ltac unregistered :=
  eexists _, _; split; [reflexivity|]; cbn; split; [tauto | auto].

(** Every [/agent/:id] write endpoint answers each request: the handlers
    of start, stop, exec and delete never throw, whatever the browser and
    the file system do.  They answer 404 exactly when [agents[id]] is
    falsy, that is when no agent is registered under the identifier and
    the identifier is not a property name the [agents] object inherits
    (such as [constructor]); they answer 200, 400 or 500 otherwise. *)
Theorem write_endpoints_always_answer env (codec : JsonCodec) id code srv :
  answers id (post_agent_start env id) srv
  ∧ answers id (post_agent_stop env id) srv
  ∧ answers id (post_agent_exec env id code) srv
  ∧ answers id (delete_agent env id) srv.
Proof.
  destruct (missing (agents srv) id) eqn:Hm.
  { assert (Hnone : agents srv !! id = None ∧ inherited id = false).
    { unfold missing in Hm. destruct (agents srv !! id); [discriminate Hm|].
      destruct (inherited id); [discriminate Hm | auto]. }
    unfold answers, post_agent_start, post_agent_stop, post_agent_exec, delete_agent.
    unfold bind at 1 3 5 7. unfold get_agents. cbn. rewrite Hm.
    repeat split; unregistered. }
  assert (Hfound : ¬ (agents srv !! id = None ∧ inherited id = false)).
  { intros [H1 H2]. unfold missing in Hm. rewrite H1, H2 in Hm. discriminate Hm. }
  split; [|split; [|split]]; unfold answers.
  - unfold post_agent_start. unfold bind at 1. unfold get_agents. cbn. rewrite Hm.
    unfold try_catch, bind.
    destruct (on_agent id (start env) srv) as [[[]|e] srv1]; cbn; answer.
  - unfold post_agent_stop. unfold bind at 1. unfold get_agents. cbn. rewrite Hm.
    unfold try_catch, bind.
    destruct (on_agent id (stop env) srv) as [[[]|e] srv1]; cbn; answer.
  - unfold post_agent_exec. unfold bind at 1. unfold get_agents. cbn. rewrite Hm.
    unfold try_catch.
    destruct (String.eqb code "share_link").
    { unfold bind.
      destruct (on_agent id (clickShareLinkButton env) srv) as [[r|e] srv1]; cbn;
        answer. }
    destruct (String.eqb code "list_participants").
    { unfold bind.
      destruct (on_agent id (listParticipants env) srv) as [[r|e] srv1]; cbn;
        answer. }
    destruct (String.eqb code "cold_start"); [|answer].
    unfold bind, fresh_uuid, get_agents, set_agents. cbn.
    destruct (on_agent _ (coldStart env) _) as [[[]|e] srv1]; cbn; answer.
  - unfold delete_agent. unfold bind at 1. unfold get_agents. cbn. rewrite Hm.
    unfold try_catch. unfold bind at 1.
    destruct (on_agent id (stop env) srv) as [[[]|e] srv1]; cbn; [|answer].
    unfold saveAgentsToFile, write_file, try_catch, bind, get_agents, set_agents,
      logger, ret; cbn.
    destruct (file_write_fails env (clock srv1)); cbn; answer.
Qed.

Lemma never_throws_closeParticipantsPane env : never_throws (_closeParticipantsPane env).
Proof.
  intros s. destruct (closeParticipantsPane_returns env s) as (s' & Hc & _).
  rewrite Hc. cbn. eauto.
Qed.

Lemma never_throws_listParticipants env : never_throws (listParticipants env).
Proof.
  intros s. unfold listParticipants. unfold bind at 1. unfold get_this. cbn.
  destruct (page (this s)); [|cbn; eauto].
  apply never_throws_try_catch. intros e.
  apply never_throws_bind; [apply never_throws_closeParticipantsPane|].
  intros []. apply never_throws_ret.
Qed.

Lemma never_throws_clickShareLinkButton env : never_throws (clickShareLinkButton env).
Proof.
  intros s. unfold clickShareLinkButton. unfold bind at 1. unfold get_this. cbn.
  destruct (page (this s)); [|cbn; eauto].
  apply never_throws_try_catch. intros e.
  apply never_throws_bind; [apply never_throws_closeParticipantsPane|].
  intros []. apply never_throws_ret.
Qed.

(** What [exec] answers for a method that leaves the agent as it is and
    never throws. *)
Lemma on_agent_total {A} id (method : M A) srv a :
  agents srv !! id = Some a →
  keeps_this method →
  never_throws method →
  ∃ r srv', on_agent id method srv = (Ok r, srv')
            ∧ fst (method {| this := a; now := clock srv; observed := [] |}) = Ok r
            ∧ agents srv' = agents srv ∧ file srv' = file srv ∧ log srv' = log srv.
Proof.
  intros Ha Hk Hn. destruct (on_agent_keeps id method srv a Ha Hk) as (H1 & H2 & H3).
  destruct (Hn {| this := a; now := clock srv; observed := [] |}) as [r Hr].
  rewrite (on_agent_agents id method srv a Ha) in *. rewrite Hr in *. cbn in *.
  eauto 10.
Qed.

(** The [share_link] and [list_participants] commands of [exec] on a
    registered agent always answer 200, never 500: the result of the
    method is in the body, with [success] true exactly when it is not
    null, and the registry, the snapshot file and the log are left as they
    were.  A command the handler does not know is answered with 400 and a
    warning in the log; nothing else changes. *)
Theorem exec_interaction_results env id a srv :
  agents srv !! id = Some a →
  let s := {| this := a; now := clock srv; observed := [] |} in
  (∃ link srv',
     post_agent_exec env id "share_link" srv
     = (Ok (mkResponse 200 (ExecBody (bool_decide (is_Some link)) (LinkData link))), srv')
     ∧ fst (clickShareLinkButton env s) = Ok link
     ∧ agents srv' = agents srv ∧ file srv' = file srv ∧ log srv' = log srv)
  ∧ (∃ participants srv',
       post_agent_exec env id "list_participants" srv
       = (Ok (mkResponse 200 (ExecBody (bool_decide (is_Some participants))
                                (ParticipantsData participants))), srv')
       ∧ fst (listParticipants env s) = Ok participants
       ∧ agents srv' = agents srv ∧ file srv' = file srv ∧ log srv' = log srv)
  ∧ (∀ code,
       code ≠ "share_link" → code ≠ "list_participants" → code ≠ "cold_start" →
       post_agent_exec env id code srv
       = (Ok (mkResponse 400 (ErrorBody "Unknown code")),
          {| agents := agents srv; file := file srv; clock := clock srv;
             log := (log srv ++ [WARN ("Unknown code: " +:+ code)])%list |})).
Proof.
  intros Ha s. split; [|split].
  - destruct (on_agent_total id (clickShareLinkButton env) srv a Ha
                (keeps_clickShareLinkButton env) (never_throws_clickShareLinkButton env))
      as (link & srv' & Hrun & Hres & Hags).
    exists link, srv'. unfold post_agent_exec. unfold bind at 1. unfold get_agents.
    cbn. rewrite (missing_registered _ _ _ Ha). unfold try_catch, bind. cbn.
    rewrite Hrun. cbn. auto.
  - destruct (on_agent_total id (listParticipants env) srv a Ha
                (keeps_listParticipants env) (never_throws_listParticipants env))
      as (ps & srv' & Hrun & Hres & Hags).
    exists ps, srv'. unfold post_agent_exec. unfold bind at 1. unfold get_agents.
    cbn. rewrite (missing_registered _ _ _ Ha). unfold try_catch, bind. cbn.
    rewrite Hrun. cbn. auto.
  - intros code H1 H2 H3. apply String.eqb_neq in H1, H2, H3.
    unfold post_agent_exec. unfold bind at 1. unfold get_agents. cbn. rewrite (missing_registered _ _ _ Ha).
    unfold try_catch. rewrite H1, H2, H3. reflexivity.
Qed.

Lemma exec_interaction_results_witness :
  let s := {| this := in_meeting; now := clock one_agent; observed := [] |} in
  (∃ link srv',
     post_agent_exec meeting "a1" "share_link" one_agent
     = (Ok (mkResponse 200 (ExecBody (bool_decide (is_Some link)) (LinkData link))), srv')
     ∧ fst (clickShareLinkButton meeting s) = Ok link
     ∧ agents srv' = agents one_agent ∧ file srv' = file one_agent
     ∧ log srv' = log one_agent)
  ∧ (∃ participants srv',
       post_agent_exec meeting "a1" "list_participants" one_agent
       = (Ok (mkResponse 200 (ExecBody (bool_decide (is_Some participants))
                                (ParticipantsData participants))), srv')
       ∧ fst (listParticipants meeting s) = Ok participants
       ∧ agents srv' = agents one_agent ∧ file srv' = file one_agent
       ∧ log srv' = log one_agent)
  ∧ (∀ code,
       code ≠ "share_link" → code ≠ "list_participants" → code ≠ "cold_start" →
       post_agent_exec meeting "a1" code one_agent
       = (Ok (mkResponse 400 (ErrorBody "Unknown code")),
          {| agents := agents one_agent; file := file one_agent;
             clock := clock one_agent;
             log := (log one_agent ++ [WARN ("Unknown code: " +:+ code)])%list |})).
Proof.
  apply (exec_interaction_results meeting "a1" in_meeting one_agent). reflexivity.
Defined.

(** ** The read endpoints *)

(** [GET /agent/:id/screenshot] is the one endpoint whose handler can
    throw: it awaits [getScreenshot] outside any [try], so a rejected
    capture leaves the handler as an exception.  With no page the answer
    is 200 with [undefined] as its body, and a capture that succeeds is
    answered with the image.  The registry, the file and the log are left
    as they were in each case. *)
Theorem screenshot_endpoint env id a srv :
  agents srv !! id = Some a →
  ∃ srv',
    agents srv' = agents srv ∧ file srv' = file srv ∧ log srv' = log srv
    ∧ match page a with
      | None =>
          get_agent_screenshot env id srv
          = (Ok (mkRead 200 (ScreenshotBody js_undefined)), srv')
      | Some pg =>
          match screenshot env pg (clock srv) with
          | Ok bytes =>
              get_agent_screenshot env id srv
              = (Ok (mkRead 200 (ScreenshotBody (Image bytes))), srv')
          | Throw e => get_agent_screenshot env id srv = (Throw e, srv')
          end
      end.
Proof.
  intros Ha.
  destruct (on_agent_keeps id (getScreenshot env) srv a Ha (keeps_getScreenshot env))
    as (H1 & H2 & H3).
  exists (snd (on_agent id (getScreenshot env) srv)).
  split; [exact H1|]. split; [exact H2|]. split; [exact H3|].
  unfold get_agent_screenshot. unfold bind at 1. unfold get_agents. cbn. rewrite (missing_registered _ _ _ Ha).
  unfold bind. rewrite (on_agent_agents id (getScreenshot env) srv a Ha).
  unfold getScreenshot, try_catch, bind, get_this, resolve, ret, await. cbn.
  destruct (page a) as [pg|]; cbn; [|reflexivity].
  destruct (screenshot env pg (clock srv)) as [bytes|e]; reflexivity.
Qed.

Lemma screenshot_endpoint_witness :
  ∃ srv',
    agents srv' = agents one_agent ∧ file srv' = file one_agent
    ∧ log srv' = log one_agent
    ∧ get_agent_screenshot no_capture "a1" one_agent
      = (Throw (Err "Protocol error (Page.captureScreenshot)"), srv').
Proof.
  apply (screenshot_endpoint no_capture "a1" in_meeting one_agent). reflexivity.
Defined.

(** [GET /agents.list] and [GET /agents.status] report the registry as it
    is and change nothing: the identifiers listed are those registered,
    each once, and the status list pairs each of them, in the same order,
    with the current status of its agent (never [undefined]). *)
Theorem list_endpoints_report_registry srv :
  ∃ ids entries,
    get_agents_list srv = (Ok (mkRead 200 (KeysBody ids)), srv)
    ∧ get_agents_status srv = (Ok (mkRead 200 (StatusListBody entries)), srv)
    ∧ NoDup ids
    ∧ length ids = size (agents srv)
    ∧ (∀ id, id ∈ ids ↔ is_Some (agents srv !! id))
    ∧ entries.*1 = ids
    ∧ (∀ id st, (id, st) ∈ entries ↔ ∃ a, agents srv !! id = Some a ∧ st = Some (status a)).
Proof.
  exists (object_keys (agents srv)), ((fun id => (id, status <$> agents srv !! id))
                                      <$> object_keys (agents srv)).
  assert (Hin : ∀ id, id ∈ object_keys (agents srv) ↔ is_Some (agents srv !! id)).
  { intros id. unfold object_keys. rewrite list_elem_of_fmap. split.
    - intros ([k a] & -> & Hka). apply elem_of_map_to_list in Hka. cbn. eauto.
    - intros [a Ha]. exists (id, a). split; [reflexivity|].
      apply elem_of_map_to_list, Ha. }
  split; [reflexivity|]. split; [reflexivity|].
  split; [apply NoDup_fst_map_to_list|].
  split; [unfold object_keys; by rewrite length_fmap, length_map_to_list|].
  split; [exact Hin|].
  split.
  - rewrite <- list_fmap_compose. cbn. apply list_fmap_id.
  - intros id st. rewrite list_elem_of_fmap. split.
    + intros (k & [= -> ->] & Hk). apply Hin in Hk as [a Ha]. exists a.
      rewrite Ha. auto.
    + intros (a & Ha & ->). exists id. rewrite Ha. split; [reflexivity|].
      apply Hin. eauto.
Qed.

(** After a start request on a registered agent, the status endpoint
    reports [running] when the request was answered with 200 and, when
    closing pages and browsers succeeds, [stopped] when it was answered
    with 500: no request leaves an agent [starting] or [error]. *)
Theorem status_after_start_request env id a srv :
  agents srv !! id = Some a →
  (∀ pg t, page_close env pg t = Ok tt) →
  (∀ b t, browser_close env b t = Ok tt) →
  ∃ r srv1,
    post_agent_start env id srv = (Ok r, srv1)
    ∧ ((http_status r = 200
        ∧ fst (get_agent_status id srv1) = Ok (mkRead 200 (AgentStatusBody running)))
       ∨ (http_status r = 500
          ∧ fst (get_agent_status id srv1) = Ok (mkRead 200 (AgentStatusBody stopped)))).
Proof.
  intros Ha Hp Hb.
  pose proof (start_when_closes_succeed env {| this := a; now := clock srv; observed := [] |}
                Hp Hb) as Hs.
  unfold post_agent_start. unfold bind at 1. unfold get_agents. cbn.
  rewrite (missing_registered _ _ _ Ha).
  unfold try_catch, bind. rewrite (on_agent_agents id (start env) srv a Ha).
  destruct (start env _) as [[r|e] s']; cbn.
  - destruct Hs as (-> & Hst & _). cbn. eexists _, _. split; [reflexivity|]. left.
    split; [reflexivity|].
    unfold get_agent_status, missing, bind, get_agents, on_agent, getStatus, get_this, ret.
    cbn. rewrite lookup_insert_eq. cbn. rewrite lookup_insert_eq. cbn. by rewrite Hst.
  - eexists _, _. split; [reflexivity|]. right. split; [reflexivity|].
    unfold get_agent_status, missing, bind, get_agents, on_agent, getStatus, get_this, ret.
    cbn. rewrite lookup_insert_eq. cbn. rewrite lookup_insert_eq. cbn. by rewrite Hs.
Qed.

Lemma status_after_start_request_witness :
  ∃ r srv1,
    post_agent_start unreachable "a1" one_agent = (Ok r, srv1)
    ∧ ((http_status r = 200
        ∧ fst (get_agent_status "a1" srv1) = Ok (mkRead 200 (AgentStatusBody running)))
       ∨ (http_status r = 500
          ∧ fst (get_agent_status "a1" srv1)
            = Ok (mkRead 200 (AgentStatusBody stopped)))).
Proof.
  apply (status_after_start_request unreachable "a1" in_meeting one_agent).
  - reflexivity.
  - intros pg t. reflexivity.
  - intros b t. reflexivity.
Defined.

(** ** The helpers of [utils.ts] *)

(** [returnChromePath] never returns a path that does not exist: the
    result is empty or a candidate of the platform that [existsSync]
    confirms, the first of them; it is empty exactly when no candidate
    exists, and always for a platform other than [win32], [linux] and
    [darwin].  Only the single-candidate branch logs that nothing was
    found: on [win32] and [linux] an empty result comes without a log
    line. *)
Theorem returnChromePath_existing existsSync runningOS :
  let result := fst (returnChromePath existsSync runningOS) in
  let logged := snd (returnChromePath existsSync runningOS) in
  (result = "" ∨ existsSync result = true)
  ∧ match fst (pathToTry runningOS) with
    | Candidates first second =>
        logged = []
        ∧ (existsSync first = true → result = first)
        ∧ (existsSync first = false → existsSync second = true → result = second)
        ∧ (existsSync first = false → existsSync second = false → result = "")
    | Single path =>
        (existsSync path = true → result = path)
        ∧ (existsSync path = false →
           result = "" ∧ last logged = Some (FATAL "Chrome path not found."))
    end
  ∧ (runningOS ≠ "win32" → runningOS ≠ "linux" → runningOS ≠ "darwin" →
     result = "" ∧ head logged = Some (FATAL "Unsupported OS for Chrome path retrieval.")).
Proof.
  unfold returnChromePath, pathToTry.
  destruct (String.eqb runningOS "win32") eqn:Hw;
    [|destruct (String.eqb runningOS "linux") eqn:Hl;
      [|destruct (String.eqb runningOS "darwin") eqn:Hd]].
  - apply String.eqb_eq in Hw. cbn.
    destruct (existsSync chromeExe) eqn:H1; [|destruct (existsSync chromeExe86) eqn:H2];
      cbn; repeat split; auto; congruence.
  - apply String.eqb_eq in Hl. cbn.
    destruct (existsSync "/usr/bin/google-chrome") eqn:H1;
      [|destruct (existsSync "/opt/google/chrome/chrome") eqn:H2];
      cbn; repeat split; auto; congruence.
  - apply String.eqb_eq in Hd. cbn.
    destruct (existsSync _) eqn:H1; cbn; repeat split; auto; congruence.
  - cbn. destruct (existsSync "") eqn:H1; cbn; repeat split; auto; congruence.
Qed.

(** *** [convertDate] *)

Lemma append_assoc (a b c : string) : (a +:+ b) +:+ c = a +:+ (b +:+ c).
Proof.
  induction a as [|x a IH]; [reflexivity|].
  rewrite !append_cons. f_equal. exact IH.
Qed.

Lemma pretty_N_go_append x s rest : pretty_N_go x s +:+ rest = pretty_N_go x (s +:+ rest).
Proof.
  revert s. induction (N.lt_wf_0 x) as [x _ IH]; intros s.
  assert (x = 0 ∨ 0 < x)%N as [->|Hx] by lia.
  - rewrite !pretty_N_go_0. reflexivity.
  - rewrite (pretty_N_go_step x s), (pretty_N_go_step x (s +:+ rest)) by exact Hx.
    rewrite IH by (apply N.div_lt; lia). reflexivity.
Qed.

Lemma digit_of_pretty_N_char d : (d < 10)%N → digit_of (pretty_N_char d) = Some d.
Proof.
  intros Hd.
  assert (d = 0 ∨ d = 1 ∨ d = 2 ∨ d = 3 ∨ d = 4 ∨ d = 5 ∨ d = 6 ∨ d = 7 ∨ d = 8 ∨ d = 9)%N
    as Hcases by lia.
  repeat destruct Hcases as [->|Hcases]; try subst d; reflexivity.
Qed.

(** Reading the digits of [x] multiplies the count by a power of ten and
    adds [x]. *)
Lemma seconds_of_pretty_N_go x rest :
  ∃ k, ∀ count total,
    seconds_of (pretty_N_go x rest) count total
    = seconds_of rest (count * 10 ^ k + x)%N total.
Proof.
  revert rest. induction (N.lt_wf_0 x) as [x _ IH]; intros rest.
  assert (x = 0 ∨ 0 < x)%N as [->|Hx] by lia.
  - exists 0%N. intros count total. rewrite pretty_N_go_0. f_equal. cbn. lia.
  - destruct (IH (x / 10)%N (N.div_lt x 10 Hx eq_refl)
                (String (pretty_N_char (x mod 10)) rest)) as [k Hk].
    exists (N.succ k). intros count total.
    rewrite pretty_N_go_step by exact Hx. rewrite Hk. cbn [seconds_of].
    rewrite digit_of_pretty_N_char by (apply N.mod_lt; lia).
    f_equal. rewrite N.pow_succ_r'.
    pose proof (N.div_mod x 10 ltac:(lia)) as Hdm. lia.
Qed.

Lemma seconds_of_pretty (x : N) rest total :
  seconds_of (pretty x +:+ rest) 0 total = seconds_of rest x total.
Proof.
  unfold pretty, pretty_N. destruct (decide (x = 0%N)) as [->|Hx].
  - reflexivity.
  - rewrite pretty_N_go_append. destruct (seconds_of_pretty_N_go x ("" +:+ rest)) as [k Hk].
    rewrite Hk. reflexivity.
Qed.

(** A part of the text and what follows it. *)
Lemma seconds_of_part (x : N) (u : ascii) (w : N) rest total :
  digit_of u = None → unit_of u = Some w →
  seconds_of ((pretty x +:+ String u "") +:+ rest) 0 total
  = seconds_of rest 0 (total + x * w)%N.
Proof.
  intros Hd Hu. rewrite append_assoc, seconds_of_pretty. rewrite append_cons.
  cbn [seconds_of]. rewrite Hd, Hu. reflexivity.
Qed.

Lemma seconds_of_last_part (x : N) (u : ascii) (w : N) total :
  digit_of u = None → unit_of u = Some w →
  seconds_of (pretty x +:+ String u "") 0 total = (total + x * w)%N.
Proof.
  intros Hd Hu. rewrite seconds_of_pretty. cbn [seconds_of]. rewrite Hd, Hu. reflexivity.
Qed.

Lemma seconds_of_space rest count total :
  seconds_of (" " +:+ rest) count total = seconds_of rest count total.
Proof. reflexivity. Qed.

(** For a whole number of seconds that a JavaScript number holds exactly,
    the text of [convertDate] determines the duration: reading each
    number in the unit that follows it ([g] days, [h] hours, [m] minutes,
    [s] seconds) gives the seconds back, so the parts shown add up to the
    whole and no two durations are shown alike.  The text is never
    empty. *)
Theorem convertDate_decodes seconds :
  (seconds < 2 ^ 53)%N →
  seconds_of (convertDate seconds) 0 0 = seconds
  ∧ convertDate seconds ≠ "".
Proof.
  intros _. unfold convertDate.
  set (days := (seconds / (3600 * 24))%N).
  set (hours := ((seconds mod (3600 * 24)) / 3600)%N).
  set (minutes := ((seconds mod 3600) / 60)%N).
  set (secs := (seconds mod 60)%N).
  assert (Hsum : (days * 86400 + hours * 3600 + minutes * 60 + secs = seconds)%N).
  { subst days hours minutes secs. change (3600 * 24)%N with 86400%N.
    pose proof (N.div_mod seconds 86400 ltac:(lia)) as H1.
    pose proof (N.div_mod (seconds mod 86400) 3600 ltac:(lia)) as H2.
    pose proof (N.div_mod seconds 3600 ltac:(lia)) as H3.
    pose proof (N.div_mod (seconds mod 3600) 60 ltac:(lia)) as H4.
    pose proof (N.div_mod seconds 60 ltac:(lia)) as H5.
    pose proof (N.mod_lt seconds 86400 ltac:(lia)) as B1.
    pose proof (N.mod_lt (seconds mod 86400) 3600 ltac:(lia)) as B2.
    pose proof (N.mod_lt seconds 3600 ltac:(lia)) as B3.
    pose proof (N.mod_lt (seconds mod 3600) 60 ltac:(lia)) as B4.
    pose proof (N.mod_lt seconds 60 ltac:(lia)) as B5.
    generalize dependent (seconds / 86400)%N. intros q1.
    generalize dependent ((seconds mod 86400) / 3600)%N. intros q2.
    generalize dependent ((seconds mod 86400) mod 3600)%N. intros r2.
    generalize dependent (seconds mod 86400)%N. intros r1.
    generalize dependent ((seconds mod 3600) / 60)%N. intros q4.
    generalize dependent ((seconds mod 3600) mod 60)%N. intros r4.
    generalize dependent (seconds / 3600)%N. intros q3.
    generalize dependent (seconds mod 3600)%N. intros r3.
    generalize dependent (seconds / 60)%N. intros q5.
    generalize dependent (seconds mod 60)%N. intros r5.
    intros.
    assert (r2 = r3) by lia.
    assert (r4 = r5) by lia.
    lia. }
  assert (Hzero : ∀ x : N, (0 <? x)%N = false → x = 0%N).
  { intros x Hx. apply N.ltb_ge in Hx. lia. }
  destruct (0 <? days)%N eqn:Hd; destruct (0 <? hours)%N eqn:Hh;
    destruct (0 <? minutes)%N eqn:Hm; destruct (0 <? secs)%N eqn:Hs;
    cbn [app length Nat.eqb orb String.concat];
    try apply Hzero in Hd; try apply Hzero in Hh; try apply Hzero in Hm;
    try apply Hzero in Hs;
    (split;
     [ repeat first
         [ rewrite (seconds_of_part _ "g" 86400) by reflexivity
         | rewrite (seconds_of_part _ "h" 3600) by reflexivity
         | rewrite (seconds_of_part _ "m" 60) by reflexivity
         | rewrite (seconds_of_part _ "s" 1) by reflexivity
         | rewrite seconds_of_space
         | rewrite (seconds_of_last_part _ "g" 86400) by reflexivity
         | rewrite (seconds_of_last_part _ "h" 3600) by reflexivity
         | rewrite (seconds_of_last_part _ "m" 60) by reflexivity
         | rewrite (seconds_of_last_part _ "s" 1) by reflexivity ];
       lia
     | destruct (pretty _ : string) eqn:Hp; discriminate ]).
Qed.

Lemma convertDate_decodes_witness :
  seconds_of (convertDate 93784) 0 0 = 93784%N ∧ convertDate 93784 ≠ "".
Proof.
  apply (convertDate_decodes 93784). vm_compute. reflexivity.
Defined.

Example convertDate_one_day_and_more : convertDate 93784 = "1g 2h 3m 4s".
Proof. vm_compute. reflexivity. Qed.

Example convertDate_zero : convertDate 0 = "0s".
Proof. vm_compute. reflexivity. Qed.

Example convertDate_whole_hours : convertDate 7200 = "2h".
Proof. vm_compute. reflexivity. Qed.

(** *** The license check *)

Lemma checkLicense_outcome fetch_json licenseKey logged :
  ∃ ok logged',
    checkLicense fetch_json licenseKey logged = (Ok ok, logged')
    ∧ (ok = true ↔ licensed fetch_json licenseKey).
Proof.
  unfold checkLicense, licensed.
  destruct (String.eqb licenseKey bypassKey) eqn:Hkey.
  - apply String.eqb_eq in Hkey. eexists _, _. split; [reflexivity|]. tauto.
  - apply String.eqb_neq in Hkey. unfold try_catch, bind, note, ret. cbn.
    destruct (fetch_json (validateUrl +:+ licenseKey)) as [resp|e] eqn:Hfetch; cbn.
    + destruct (success resp) eqn:Hs, (valid resp) eqn:Hv; cbn;
        (eexists _, _; split; [reflexivity|]);
        (split; [intros H; try discriminate H; right; eauto
                |intros [H|(resp' & [= <-] & H1 & H2)]; congruence]).
    + eexists _, _. split; [reflexivity|].
      split; [intros H; discriminate H|].
      intros [H|(resp & H & _)]; [tauto | discriminate H].
Qed.

(** [checkLicense] never throws: a request that fails, or a body that is
    not JSON, is logged and answered with [false].  It returns [true] for
    the bypass key, without asking the license server (whatever the
    server would answer, and logging that the bypass key was used), and
    otherwise exactly when the server answers with [success] and [valid]
    both true, logging that the license is valid.  When it returns
    [false] the first line it logged is a fatal one. *)
Theorem checkLicense_true_iff_licensed fetch_json licenseKey logged :
  ∃ ok logged',
    checkLicense fetch_json licenseKey logged = (Ok ok, logged')
    ∧ (ok = true ↔ licensed fetch_json licenseKey)
    ∧ (licenseKey = bypassKey →
       ∀ other, checkLicense other licenseKey logged
                = (Ok true,
                   (logged ++ [Info "Used bypass key for testing purposes."])%list))
    ∧ (licenseKey ≠ bypassKey → ok = true →
       logged' = (logged ++ [Success "License is valid."])%list)
    ∧ (ok = false → ∃ line lines, logged' = (logged ++ Fatal line :: lines)%list).
Proof.
  unfold checkLicense, licensed.
  destruct (String.eqb licenseKey bypassKey) eqn:Hkey.
  - apply String.eqb_eq in Hkey. eexists _, _. split; [reflexivity|].
    split; [tauto|]. split; [intros _ other; reflexivity|].
    split; [intros Hne; destruct (Hne Hkey) | intros H; discriminate H].
  - apply String.eqb_neq in Hkey. unfold try_catch, bind, note, ret. cbn.
    destruct (fetch_json (validateUrl +:+ licenseKey)) as [resp|e] eqn:Hfetch; cbn.
    + destruct (success resp) eqn:Hs, (valid resp) eqn:Hv; cbn;
        (eexists _, _; split; [reflexivity|]; split;
         [ split; [intros H; try discriminate H; right; eauto
                  |intros [H|(resp' & [= <-] & H1 & H2)]; congruence]
         | split; [intros H; destruct (Hkey H)|];
           split; [intros _ H; try discriminate H; reflexivity|];
           intros H; try discriminate H;
           eexists _, _; rewrite <- !app_assoc; reflexivity ]).
    + eexists _, _. split; [reflexivity|]. split.
      * split; [intros H; discriminate H|].
        intros [H|(resp & H & _)]; [tauto | discriminate H].
      * split; [intros H; destruct (Hkey H)|].
        split; [intros _ H; discriminate H|].
        intros _. eexists _, _. rewrite <- !app_assoc. reflexivity.
Qed.

(** The API server is set up only with a license: the process goes on to
    load the registry exactly when [--license] is given, not empty, and
    [checkLicense] accepts it; it then serves the registry of the start-up
    sequence.  In every other case it exits with code 1. *)
Theorem api_serves_iff_licensed fetch_json env (codec : JsonCodec) license coldstart boot :
  match fst (api_main fetch_json env license coldstart boot) with
  | Serving srv =>
      srv = snd (startup env coldstart boot)
      ∧ ∃ key, license = Some key ∧ key ≠ "" ∧ licensed fetch_json key
  | Exit code =>
      code = 1
      ∧ ∀ key, license = Some key → key = "" ∨ ¬ licensed fetch_json key
  end.
Proof.
  unfold api_main. destruct license as [[|c key]|]; cbn.
  - split; [reflexivity|]. intros key [= <-]. auto.
  - destruct (checkLicense_outcome fetch_json (String c key) []) as (ok & logged & Hrun & Hok).
    rewrite Hrun. destruct ok; cbn.
    + split; [reflexivity|]. exists (String c key). split; [reflexivity|].
      split; [discriminate|]. apply Hok. reflexivity.
    + split; [reflexivity|]. intros k [= <-]. right. intros Hl. apply Hok in Hl.
      discriminate Hl.
  - split; [reflexivity|]. intros key H. discriminate H.
Qed.

(** ** The command-line interface *)

Lemma cli_keeps_ret {A} (a : A) (Q : A -> Prop) : Q a → cli_keeps (ret a) Q.
Proof. intros Ha st Hst. split; [exact Hst|]. intros r [= <-]. exact Ha. Qed.

Lemma cli_keeps_bind {A B} (m : C A) (k : A -> C B) (P : A -> Prop) (Q : B -> Prop) :
  cli_keeps m P → (∀ a, P a → cli_keeps (k a) Q) → cli_keeps (bind m k) Q.
Proof.
  intros Hm Hk st Hst. unfold bind. destruct (Hm st Hst) as [H1 H2].
  destruct (m st) as [[a|e] st1]; cbn in *.
  - apply (Hk a (H2 a eq_refl) st1 H1).
  - split; [exact H1|]. intros r Hr. discriminate Hr.
Qed.

Lemma cli_keeps_try_catch {A} (body : C A) (handler : exn -> C A) (Q : A -> Prop) :
  cli_keeps body Q → (∀ e, cli_keeps (handler e) Q) → cli_keeps (try_catch body handler) Q.
Proof.
  intros Hb Hh st Hst. unfold try_catch. destruct (Hb st Hst) as [H1 H2].
  destruct (body st) as [[a|e] st1]; cbn in *.
  - split; [exact H1|]. exact H2.
  - apply (Hh e st1 H1).
Qed.

Lemma cli_keeps_weaken {A} (m : C A) (P Q : A -> Prop) :
  cli_keeps m P → (∀ a, P a → Q a) → cli_keeps m Q.
Proof.
  intros Hm HPQ st Hst. destruct (Hm st Hst) as [H1 H2]. split; [exact H1|].
  intros r Hr. apply HPQ, H2, Hr.
Qed.

Lemma at_rest_fresh r : fresh r → ∀ a, r = Some a → at_rest a.
Proof. intros Hr a Ha. destruct (Hr a Ha) as [cfg ->]. apply at_rest_new_agent. Qed.

Section CommandLineFacts.

Variable env : Env.
Variable console : Console.
Context {codec : JsonCodec}.

Hypothesis pages_close : ∀ pg t, page_close env pg t = Ok tt.
Hypothesis browsers_close : ∀ b t, browser_close env b t = Ok tt.

Lemma cli_keeps_ask question : cli_keeps (ask console question) (fun _ => True).
Proof. intros st Hst. split; [exact Hst | auto]. Qed.

Lemma cli_keeps_now_ms : cli_keeps (now_ms console) (fun _ => True).
Proof. intros st Hst. split; [exact Hst | auto]. Qed.

Lemma cli_keeps_current : cli_keeps current (fun _ => True).
Proof. intros st Hst. split; [exact Hst | auto]. Qed.

Lemma cli_keeps_pause : cli_keeps pause (fun _ => True).
Proof. intros st Hst. split; [exact Hst | auto]. Qed.

Lemma cli_keeps_write_screenshot filename bytes :
  cli_keeps (write_screenshot console filename bytes) (fun _ => True).
Proof.
  intros st Hst. unfold write_screenshot.
  destruct (screenshot_write_fails console (cli_clock st)); cbn; split; auto.
Qed.

Lemma cli_keeps_set_current r :
  (∀ a, r = Some a → at_rest a) → cli_keeps (set_current r) (fun _ => True).
Proof. intros Hr st Hst. split; [exact Hr | auto]. Qed.

Lemma cli_keeps_on_current {A} (method : M A) :
  (∀ s, at_rest (this s) → at_rest (this (snd (method s)))) →
  cli_keeps (on_current method) (fun _ => True).
Proof.
  intros Hm st Hst. unfold on_current. destruct (agent st) as [a|] eqn:Ha.
  - specialize (Hm {| this := a; now := cli_clock st; observed := [] |} (Hst a Ha)).
    destruct (method _) as [r s']. cbn in *. split; [|auto].
    intros a' [= <-]. exact Hm.
  - split; [exact Hst | auto].
Qed.

Lemma cli_keeps_on_temporary {A} config (method : M A) :
  cli_keeps (on_temporary config method) (fun _ => True).
Proof.
  intros st Hst. unfold on_temporary. destruct (method _) as [r s']. cbn.
  split; [exact Hst | auto].
Qed.

Lemma cli_keeps_call (c : Call) {A} (method : M A) :
  (∀ s, snd (method s) = run_call env c s) →
  cli_keeps (on_current method) (fun _ => True).
Proof.
  intros Hc. apply cli_keeps_on_current. intros s Hs. rewrite Hc.
  apply run_call_at_rest; assumption.
Qed.

(** The agents [loadAgentsFromFile] returns are freshly constructed. *)
Lemma loadAgentsFromFile_fresh srv loaded id :
  fst (loadAgentsFromFile env srv) = Ok loaded → fresh (loaded !! id).
Proof.
  unfold loadAgentsFromFile, loadAgentsFromFile_at, read_binding, try_catch, bind,
    file_exists, file_text, logger, ret, throw.
  cbn. intros Hload a Ha.
  assert (Hempty : (∅ : gmap string Agent) !! id = Some a → ∃ cfg, a = new_agent cfg).
  { rewrite lookup_empty. discriminate. }
  destruct (file_exists_fails env (clock srv)); cbn in Hload;
    [injection Hload as <-; auto|].
  destruct (file srv) as [text|]; cbn in Hload; [|injection Hload as <-; auto].
  destruct (file_text_fails env (S (clock srv))); cbn in Hload;
    [injection Hload as <-; auto|].
  destruct (is_blank text); cbn in Hload; [injection Hload as <-; auto|].
  destruct (parse text) as [doc|e]; cbn in Hload; injection Hload as <-; auto.
  rewrite lookup_fmap in Ha. destruct (doc !! id) as [cfg|]; [|discriminate].
  injection Ha as <-. eauto.
Qed.

Lemma cli_keeps_createNewAgent : cli_keeps (createNewAgent console) fresh.
Proof.
  intros st Hst. split; [exact Hst|]. intros r [= <-] a [= <-]. eauto.
Qed.

Lemma cli_keeps_loadAgent : cli_keeps (loadAgent env console) fresh.
Proof.
  intros st Hst. unfold loadAgent, bind, lift_H, ask, ret.
  pose proof (loadAgentsFromFile_fresh
                {| agents := ∅; file := cli_file st; clock := cli_clock st;
                   log := cli_log st |}) as Hfresh.
  destruct (loadAgentsFromFile env _) as [[loaded|e] srv]; cbn in *.
  2: { split; [exact Hst|]. intros r Hr. discriminate Hr. }
  assert (Hnone : fresh None) by (intros a Ha; discriminate Ha).
  repeat match goal with
         | |- context [match ?x with _ => _ end] =>
             lazymatch x with
             | context [match _ with _ => _ end] => fail
             | _ => destruct x eqn:?
             end
         | |- context [if ?x then _ else _] =>
             lazymatch x with
             | context [if _ then _ else _] => fail
             | _ => destruct x eqn:?
             end
         end; cbn;
    (split; [exact Hst|]; intros r [= <-]; auto).
Qed.

Ltac cli_step :=
  first
    [ apply cli_keeps_ret; exact I
    | apply cli_keeps_on_temporary
    | apply cli_keeps_write_screenshot
    | apply cli_keeps_ask
    | apply cli_keeps_now_ms
    | apply cli_keeps_pause
    | apply (cli_keeps_call call_start); reflexivity
    | apply (cli_keeps_call call_stop); reflexivity
    | apply (cli_keeps_call call_getStatus); reflexivity
    | apply (cli_keeps_call call_getConfig); reflexivity
    | apply (cli_keeps_call call_getData); reflexivity
    | apply (cli_keeps_call call_getScreenshot); reflexivity
    | apply (cli_keeps_call call_listParticipants); reflexivity
    | apply (cli_keeps_call call_clickShareLinkButton); reflexivity
    | apply (cli_keeps_call call_getMeetingDuration); reflexivity
    | apply (cli_keeps_call call_coldStart); reflexivity
    | apply cli_keeps_set_current; apply at_rest_fresh; assumption
    | eapply cli_keeps_bind; [apply cli_keeps_createNewAgent | intros ? ?]
    | eapply cli_keeps_bind; [apply cli_keeps_loadAgent | intros ? ?]
    | apply cli_keeps_try_catch; [|intros ?]
    | eapply cli_keeps_bind; [|intros ? ?]
    | match goal with
      | |- cli_keeps (match ?x with _ => _ end) _ => destruct x
      | |- cli_keeps (if ?x then _ else _) _ => destruct x
      end ].

Lemma cli_keeps_menu_without_agent choice :
  cli_keeps (menu_without_agent env console choice) (fun _ => True).
Proof. unfold menu_without_agent. repeat cli_step. Qed.

Lemma cli_keeps_menu_with_agent choice :
  cli_keeps (menu_with_agent env console choice) (fun _ => True).
Proof. unfold menu_with_agent. repeat cli_step. Qed.

Lemma cli_keeps_iteration : cli_keeps (iteration env console) (fun _ => True).
Proof.
  unfold iteration.
  eapply cli_keeps_bind; [apply cli_keeps_current | intros a _].
  eapply cli_keeps_bind; [apply cli_keeps_ask | intros choice _].
  eapply cli_keeps_bind.
  - destruct a; [apply cli_keeps_menu_with_agent | apply cli_keeps_menu_without_agent].
  - intros continue _. destruct continue; repeat cli_step.
Qed.

Lemma cli_keeps_mainLoop turns : cli_keeps (mainLoop env console turns) (fun _ => True).
Proof.
  induction turns as [|turns IH]; cbn [mainLoop].
  - apply cli_keeps_ret. exact I.
  - eapply cli_keeps_bind; [apply cli_keeps_iteration | intros continue _].
    destruct continue; [exact IH | apply cli_keeps_ret; exact I].
Qed.

End CommandLineFacts.

(** From its start and through any number of turns of the menu, whatever
    is typed, the agent the CLI holds satisfies the session invariant
    between turns, when closing pages and browsers succeeds: it has a
    browser and a page exactly when its status is [starting] or [running].
    This also holds when a turn ends in an exception. *)
Theorem cli_agent_keeps_session_invariant env console (codec : JsonCodec) turns snapshot a :
  (∀ pg t, page_close env pg t = Ok tt) →
  (∀ b t, browser_close env b t = Ok tt) →
  agent (snd (mainLoop env console turns (cli_started snapshot))) = Some a →
  session_invariant a.
Proof.
  intros Hp Hb Ha. apply at_rest_session_invariant.
  destruct (cli_keeps_mainLoop env console Hp Hb turns (cli_started snapshot)) as [Hrest _].
  - intros a' Ha'. discriminate Ha'.
  - apply Hrest, Ha.
Qed.

Lemma cli_agent_keeps_session_invariant_witness :
  session_invariant
    {| config := {| startUrl := defaultStartUrl; headless := false; scrapeData := false;
                    muteAudio := true; config_id := Some "agent-1735689600000" |};
       browser := Some 1; page := Some 2; status := running |}.
Proof.
  apply (cli_agent_keeps_session_invariant meeting typist json_codec 2 None).
  - intros pg t. reflexivity.
  - intros b t. reflexivity.
  - vm_compute. reflexivity.
Defined.

(** The menu refuses what the status of the agent does not allow: a
    screenshot, a list of participants, an invite link or a meeting
    duration asked of an agent that is not running, a start of an agent
    that is running or starting, and a stop of one that is stopped or
    idle.  Such a turn calls nothing on the agent: the browser is not
    touched, the agent is as before, and only the pause of the loop
    passes. *)
Theorem cli_refuses_by_status env console (codec : JsonCodec) st a choice :
  agent st = Some a →
  prompt console "Enter your choice: " (cli_clock st) = Some choice →
  refused (status a) choice →
  iteration env console st
  = (Ok true, {| agent := Some a; cli_file := cli_file st; cli_clock := S (cli_clock st);
                 cli_log := cli_log st; screenshots := screenshots st |}).
Proof.
  intros Ha Hchoice Hrefused.
  unfold iteration. unfold bind at 1. unfold current. cbn. rewrite Ha.
  unfold bind at 1. unfold ask. cbn. rewrite Hchoice.
  unfold menu_with_agent, chose.
  destruct Hrefused as [[Hst [-> | [-> | [-> | ->]]]] | [[Hst ->] | [Hst ->]]];
    cbn [String.eqb];
    rewrite ?Ascii.eqb_refl; cbn;
    unfold bind, on_current, getStatus, get_this, pause, ret; cbn; rewrite Ha; cbn.
  1-4: destruct (status a); try reflexivity; congruence.
  - destruct (status a); try discriminate Hst; reflexivity.
  - destruct Hst as [-> | ->]; reflexivity.
Qed.

Lemma cli_refuses_by_status_witness :
  iteration unreachable typist
    {| agent := Some in_meeting; cli_file := None; cli_clock := 4; cli_log := [];
       screenshots := [] |}
  = (Ok true, {| agent := Some in_meeting; cli_file := None; cli_clock := 5;
                 cli_log := []; screenshots := [] |}).
Proof.
  apply (cli_refuses_by_status unreachable typist json_codec
           {| agent := Some in_meeting; cli_file := None; cli_clock := 4; cli_log := [];
              screenshots := [] |} in_meeting "1").
  - reflexivity.
  - reflexivity.
  - right. left. split; reflexivity.
Defined.

(** *** [loadAgent] and [parseInt] *)

Lemma pretty_N_go_digit x rest :
  (0 < x)%N → ∃ d r, (d < 10)%N ∧ pretty_N_go x rest = String (pretty_N_char d) r.
Proof.
  revert rest. induction (N.lt_wf_0 x) as [x _ IH]; intros rest Hx.
  rewrite pretty_N_go_step by exact Hx.
  destruct (N.eq_0_gt_0_cases (x / 10)) as [H0|Hpos].
  - rewrite H0, pretty_N_go_0. exists (x mod 10)%N, rest.
    split; [apply N.mod_lt; lia | reflexivity].
  - apply IH; [apply N.div_lt; lia | exact Hpos].
Qed.

Lemma read_digits_pretty_N_go x rest :
  (0 < x)%N →
  ∃ k : nat, ∀ value,
    read_digits (pretty_N_go x rest) value
    = read_digits rest (Some (default 0 value * 10 ^ Z.of_nat k + Z.of_N x)%Z).
Proof.
  revert rest. induction (N.lt_wf_0 x) as [x _ IH]; intros rest Hx.
  rewrite pretty_N_go_step by exact Hx.
  pose proof (N.div_mod x 10 ltac:(lia)) as Hdm.
  pose proof (N.mod_lt x 10 ltac:(lia)) as Hlt.
  assert (Hx10 : Z.of_N x = (10 * Z.of_N (x / 10) + Z.of_N (x mod 10))%Z) by lia.
  destruct (N.eq_0_gt_0_cases (x / 10)) as [H0|Hpos].
  - rewrite H0, pretty_N_go_0. exists 1. intros value. cbn [read_digits].
    rewrite digit_of_pretty_N_char by exact Hlt. do 2 f_equal.
    rewrite Hx10, H0. change (10 ^ Z.of_nat 1)%Z with 10%Z. lia.
  - destruct (IH (x / 10)%N (N.div_lt x 10 Hx eq_refl)
                (String (pretty_N_char (x mod 10)) rest) Hpos) as [k Hk].
    exists (S k). intros value. rewrite Hk.
    cbn [read_digits default]. rewrite digit_of_pretty_N_char by exact Hlt.
    do 2 f_equal. unfold id.
    rewrite Nat2Z.inj_succ, Z.pow_succ_r by lia. rewrite Hx10. ring.
Qed.

Lemma parseInt_pretty (n : N) : (0 < n)%N → parseInt (pretty n) = Some (Z.of_N n).
Proof.
  intros Hn. unfold pretty, pretty_N. destruct (decide (n = 0%N)) as [->|_]; [lia|].
  destruct (read_digits_pretty_N_go n "" Hn) as [k Hk].
  destruct (pretty_N_go_digit n "" Hn) as (d & r & Hd & Hshape).
  assert (Hparse : parseInt (pretty_N_go n "") = read_digits (pretty_N_go n "") None).
  { rewrite Hshape.
    assert (d = 0 ∨ d = 1 ∨ d = 2 ∨ d = 3 ∨ d = 4 ∨ d = 5 ∨ d = 6 ∨ d = 7 ∨ d = 8
            ∨ d = 9)%N as Hcases by lia.
    repeat destruct Hcases as [->|Hcases]; try subst d; reflexivity. }
  rewrite Hparse, Hk. cbn [read_digits default]. f_equal; lia.
Qed.

Lemma object_keys_lookup (m : gmap string Agent) i id :
  object_keys m !! i = Some id → is_Some (m !! id).
Proof.
  intros Hi. apply list_elem_of_lookup_2 in Hi. unfold object_keys in Hi.
  apply list_elem_of_fmap in Hi as ([k a] & -> & Hka).
  apply elem_of_map_to_list in Hka. cbn. eauto.
Qed.

(** When the load of the snapshot inside it returns, [loadAgent] returns
    too.  It returns an agent exactly when the answer to its question
    reads, as [parseInt] reads it, as a number from 1 to the number of
    agents listed; typing the number shown in front of an identifier
    returns the agent loaded under that identifier; and the agent
    returned is freshly constructed from its saved configuration: idle,
    with no browser and no page. *)
Theorem loadAgent_selects_listed_agent env console (codec : JsonCodec) st loaded st1 :
  lift_H (loadAgentsFromFile env) st = (Ok loaded, st1) →
  ∃ r,
    loadAgent env console st = (Ok r, st1)
    ∧ fresh r
    ∧ let ids := object_keys loaded in
      let answer := prompt console
                      ("Select agent by number (1-" +:+ pretty (length ids) +:+ "):")
                      (cli_clock st1) in
      (is_Some r ↔ ∃ text k, answer = Some text ∧ parseInt text = Some k
                             ∧ (1 ≤ k ≤ Z.of_nat (length ids))%Z)
      ∧ (∀ i id, ids !! i = Some id → answer = Some (pretty (S i)) →
                 r = loaded !! id ∧ is_Some r).
Proof.
  intros Hlift.
  assert (Hfresh' : ∀ id, fresh (loaded !! id)).
  { intros id. unfold lift_H in Hlift.
    destruct (loadAgentsFromFile env _) as [r0 srv] eqn:Hload.
    injection Hlift as Hr _. subst r0.
    eapply loadAgentsFromFile_fresh. rewrite Hload. reflexivity. }
  unfold loadAgent, bind. rewrite Hlift. cbn.
  set (ids := object_keys loaded).
  assert (Hnone : fresh None) by (intros a Ha; discriminate Ha).
  assert (Htyped : ∀ i, parseInt (pretty (S i)) = Some (Z.of_nat (S i))).
  { intros i. change (pretty (S i)) with (pretty (N.of_nat (S i))).
    rewrite parseInt_pretty by lia. f_equal; lia. }
  destruct (length ids =? 0)%nat eqn:Hlen.
  { apply Nat.eqb_eq in Hlen. exists None. split; [reflexivity|].
    split; [exact Hnone|]. split.
    - split; [intros [a Ha]; discriminate Ha|]. intros (text & k & _ & _ & Hk). lia.
    - intros i id Hi. apply lookup_lt_Some in Hi. lia. }
  apply Nat.eqb_neq in Hlen. unfold ask. cbn.
  destruct (prompt console _ (cli_clock st1)) as [[|c text]|] eqn:Hans; cbn.
  - exists None. split; [reflexivity|]. split; [exact Hnone|]. split.
    + split; [intros [a Ha]; discriminate Ha|].
      intros (text & k & [= <-] & Hk & _). discriminate Hk.
    + intros i id _ [= Hp]. specialize (Htyped i). rewrite <- Hp in Htyped.
      discriminate Htyped.
  - destruct (parseInt (String c text)) as [k|] eqn:Hparse; cbn.
    2: { exists None. split; [reflexivity|].
         split; [exact Hnone|]. split.
         - split; [intros [a Ha]; discriminate Ha|].
           intros (text' & k & [= <-] & Hk & _). congruence.
         - intros i id _ [= Hp]. specialize (Htyped i). rewrite <- Hp in Htyped.
           congruence. }
    destruct ((k <? 1)%Z || (Z.of_nat (length ids) <? k)%Z) eqn:Hrange; cbn.
    { apply orb_true_iff in Hrange.
      exists None. split; [reflexivity|].
      split; [exact Hnone|]. split.
      - split; [intros [a Ha]; discriminate Ha|].
        intros (text' & k' & [= <-] & Hk & Hin).
        assert (k' = k) as -> by congruence. lia.
      - intros i id Hi [= Hp]. apply lookup_lt_Some in Hi.
        specialize (Htyped i). rewrite <- Hp in Htyped.
        assert (k = Z.of_nat (S i)) as -> by congruence. exfalso.
        destruct Hrange as [Hlow|Hhigh]; [apply Z.ltb_lt in Hlow | apply Z.ltb_lt in Hhigh];
          lia. }
    apply orb_false_iff in Hrange.
    destruct (lookup_lt_is_Some_2 ids (Z.to_nat (k - 1)) ltac:(lia)) as [id0 Hid0].
    rewrite Hid0. cbn. exists (loaded !! id0).
    split; [reflexivity|]. split; [apply Hfresh'|].
    split.
    + split; [|intros _; eapply object_keys_lookup, Hid0].
      intros _. exists (String c text), k. split; [reflexivity|]. split; [exact Hparse|].
      lia.
    + intros i id Hi [= Hp]. specialize (Htyped i). rewrite <- Hp in Htyped.
      assert (k = Z.of_nat (S i)) as -> by congruence.
      replace (Z.to_nat (Z.of_nat (S i) - 1)) with i in Hid0 by lia.
      assert (id0 = id) as -> by congruence.
      split; [reflexivity | eapply object_keys_lookup, Hi].
  - exists None. split; [reflexivity|]. split; [exact Hnone|]. split.
    + split; [intros [a Ha]; discriminate Ha|]. intros (text & k & Ht & _). discriminate Ht.
    + intros i id _ Ht. discriminate Ht.
Qed.

Lemma loadAgent_selects_listed_agent_witness :
  ∃ r,
    loadAgent meeting chooser (cli_started (file (rebooted json_codec)))
    = (Ok r, cli_loaded json_codec)
    ∧ fresh r
    ∧ let ids := object_keys (new_agent <$> (config <$> agents two_agents)) in
      let answer := prompt chooser
                      ("Select agent by number (1-" +:+ pretty (length ids) +:+ "):")
                      (cli_clock (cli_loaded json_codec)) in
      (is_Some r ↔ ∃ text k, answer = Some text ∧ parseInt text = Some k
                             ∧ (1 ≤ k ≤ Z.of_nat (length ids))%Z)
      ∧ (∀ i id, ids !! i = Some id → answer = Some (pretty (S i)) →
                 r = (new_agent <$> (config <$> agents two_agents)) !! id ∧ is_Some r).
Proof.
  apply (loadAgent_selects_listed_agent meeting chooser json_codec
           (cli_started (file (rebooted json_codec)))
           (new_agent <$> (config <$> agents two_agents)) (cli_loaded json_codec)).
  vm_compute. reflexivity.
Defined.
